(** * SpendOptimo: infrastructure stacks and the remediation workflow

    A shallow embedding of the parts of the SpendOptimo repository that the
    specification makes statements about.

    - [Iam]: the [IamRolesStack] (infra/lib/iam-roles.ts): the executor and
      read-only roles and the policy statements attached to them, with a
      small evaluator for identity policies.
    - [Apigw]: the REST API built by [ApiStack] (infra/lib/api-stack.ts):
      the resources and methods its constructor registers.
    - [Sfn]: the [SpendOptimoAutomation] state machine of the same stack and
      an interpreter for the states language fragment it uses.
    - [Workflow]: the plan/validate/execute engine of the specification
      (sections 3-4), over an abstract provider backend.
    - [Scenario]: an in-memory backend on which the scenarios of section 8
      are run. *)

From Stdlib Require Import ZArith Lia Ascii String List Bool.
From stdpp Require Import base strings list gmap.

Local Open Scope string_scope.
Local Open Scope list_scope.

(* ===================================================================== *)
(** ** IAM roles (infra/lib/iam-roles.ts)                                 *)
(* ===================================================================== *)

Module Iam.

Inductive Principal :=
| ServicePrincipal (service : string).

(** One entry of a statement's [conditions] block:
    [{ operator: { key: value } }]. *)
Record Condition := {
  cond_operator : string;
  cond_key : string;
  cond_value : string
}.

Record PolicyStatement := {
  actions : list string;
  resources : list string;
  conditions : list Condition
}.

(** A role: who may assume it, the managed policies attached by name, and
    the statements of its inline (default) policy, in attachment order. *)
Record Role := {
  role_id : string;
  assumedBy : Principal;
  managedPolicies : list string;
  policy : list PolicyStatement
}.

Definition newRole (id : string) (p : Principal) : Role :=
  {| role_id := id; assumedBy := p; managedPolicies := []; policy := [] |}.

Definition addManagedPolicy (name : string) (r : Role) : Role :=
  {| role_id := role_id r; assumedBy := assumedBy r;
     managedPolicies := managedPolicies r ++ [name];
     policy := policy r |}.

Definition addToPolicy (s : PolicyStatement) (r : Role) : Role :=
  {| role_id := role_id r; assumedBy := assumedBy r;
     managedPolicies := managedPolicies r;
     policy := policy r ++ [s] |}.

Definition project_tag_condition : Condition :=
  {| cond_operator := "StringEquals";
     cond_key := "aws:ResourceTag/project";
     cond_value := "spendoptimo" |}.

Definition executorStatement : PolicyStatement :=
  {| actions :=
       [ "ec2:StopInstances"; "ec2:StartInstances"; "ec2:ModifyInstanceAttribute";
         "autoscaling:PutScheduledUpdateGroupAction";
         "s3:PutLifecycleConfiguration"; "s3:GetLifecycleConfiguration";
         "rds:StopDBInstance"; "rds:StartDBInstance"; "rds:ModifyDBInstance";
         "eks:UpdateNodegroupConfig"; "eks:DescribeNodegroup" ];
     resources := [ "*" ];
     conditions := [ project_tag_condition ] |}.

Definition executorRole : Role :=
  addToPolicy executorStatement
    (addManagedPolicy "service-role/AWSLambdaBasicExecutionRole"
       (newRole "SpendOptimoExecutorRole" (ServicePrincipal "lambda.amazonaws.com"))).

Definition readStatement : PolicyStatement :=
  {| actions :=
       [ "ce:*"; "athena:*"; "glue:*"; "s3:Get*"; "s3:List*";
         "compute-optimizer:*"; "budgets:View*"; "tag:Get*";
         "cloudwatch:GetMetricData"; "cloudwatch:ListMetrics";
         "rds:Describe*"; "eks:List*"; "eks:Describe*" ];
     resources := [ "*" ];
     conditions := [] |}.

Definition readRole : Role :=
  addToPolicy readStatement
    (addManagedPolicy "service-role/AWSLambdaBasicExecutionRole"
       (newRole "SpendOptimoReadOnlyRole" (ServicePrincipal "lambda.amazonaws.com"))).

(** *** Evaluating the inline policy of a role *)

(** A request names an action and a resource and carries the condition
    context the service supplies (for a tagged resource, the key
    [aws:ResourceTag/<tag>] bound to the tag's value). *)
Record Request := {
  req_action : string;
  req_resource : string;
  req_context : list (string * string)
}.

(** Wildcard matching of action and resource patterns: [*] stands for any
    run of characters, [?] for any one character. *)
Fixpoint glob (p s : string) : bool :=
  match p with
  | EmptyString => match s with EmptyString => true | String _ _ => false end
  | String c p' =>
      if Ascii.eqb c "*"%char then
        (fix skip (t : string) : bool :=
           glob p' t || match t with
                        | EmptyString => false
                        | String _ t' => skip t'
                        end) s
      else
        match s with
        | EmptyString => false
        | String d s' => (Ascii.eqb c "?"%char || Ascii.eqb c d) && glob p' s'
        end
  end.

Fixpoint context_lookup (k : string) (ctx : list (string * string)) : option string :=
  match ctx with
  | [] => None
  | (k', v) :: rest => if String.eqb k k' then Some v else context_lookup k rest
  end.

(** Only [StringEquals] occurs in the stack; a condition with another
    operator is treated as not satisfied. *)
Definition condition_holds (ctx : list (string * string)) (c : Condition) : bool :=
  if String.eqb (cond_operator c) "StringEquals" then
    match context_lookup (cond_key c) ctx with
    | Some v => String.eqb v (cond_value c)
    | None => false
    end
  else false.

Definition statement_allows (s : PolicyStatement) (q : Request) : bool :=
  existsb (fun p => glob p (req_action q)) (actions s)
  && existsb (fun p => glob p (req_resource q)) (resources s)
  && forallb (condition_holds (req_context q)) (conditions s).

Definition inline_policy_allows (r : Role) (q : Request) : bool :=
  existsb (fun s => statement_allows s q) (policy r).

(** The tag condition as a predicate on a statement. *)
Definition tag_scoped (s : PolicyStatement) : Prop :=
  In project_tag_condition (conditions s).

Example glob_star : glob "s3:Get*" "s3:GetObject" = true.
Proof. reflexivity. Qed.

Example glob_exact_only : glob "ec2:StopInstances" "ec2:StopInstancesX" = false.
Proof. reflexivity. Qed.

Example executor_allows_tagged :
  inline_policy_allows executorRole
    {| req_action := "ec2:StopInstances";
       req_resource := "arn:aws:ec2:us-east-1:111122223333:instance/i-0abc";
       req_context := [("aws:ResourceTag/project", "spendoptimo")] |} = true.
Proof. reflexivity. Qed.

Example executor_denies_untagged :
  inline_policy_allows executorRole
    {| req_action := "ec2:StopInstances";
       req_resource := "arn:aws:ec2:us-east-1:111122223333:instance/i-0abc";
       req_context := [("aws:ResourceTag/project", "other")] |} = false.
Proof. reflexivity. Qed.

Lemma context_lookup_eqb (ctx : list (string * string)) (c : Condition) :
  condition_holds ctx c = true ->
  cond_operator c = "StringEquals" /\
  context_lookup (cond_key c) ctx = Some (cond_value c).
Proof.
  unfold condition_holds.
  destruct (String.eqb_spec (cond_operator c) "StringEquals") as [Hop|]; [|discriminate].
  destruct (context_lookup (cond_key c) ctx) as [v|]; [|discriminate].
  destruct (String.eqb_spec v (cond_value c)) as [->|]; [|discriminate].
  auto.
Qed.

Lemma statement_allows_conditions (s : PolicyStatement) (q : Request) (c : Condition) :
  statement_allows s q = true -> In c (conditions s) ->
  context_lookup (cond_key c) (req_context q) = Some (cond_value c).
Proof.
  unfold statement_allows. intros H Hin.
  apply andb_prop in H as [_ Hc].
  rewrite forallb_forall in Hc.
  apply context_lookup_eqb, Hc, Hin.
Qed.

(** C10. Every action the executor role's own policy grants (the statement
    holding ec2:StopInstances, ec2:StartInstances,
    ec2:ModifyInstanceAttribute, s3:PutLifecycleConfiguration,
    rds:ModifyDBInstance and the rest) sits in a statement that carries the
    condition StringEquals aws:ResourceTag/project = spendoptimo, and a
    request is allowed by that policy only on a resource whose project tag
    is spendoptimo. *)
Theorem executor_actions_tag_scoped :
  policy executorRole = [executorStatement] /\
  (forall s a, In s (policy executorRole) -> In a (actions s) -> tag_scoped s) /\
  Forall (fun a => In a (actions executorStatement))
    [ "ec2:StopInstances"; "ec2:StartInstances"; "ec2:ModifyInstanceAttribute";
      "s3:PutLifecycleConfiguration"; "rds:ModifyDBInstance" ] /\
  (forall q, inline_policy_allows executorRole q = true ->
             context_lookup "aws:ResourceTag/project" (req_context q) = Some "spendoptimo").
Proof.
  split; [reflexivity|]. split; [|split].
  - intros s a [<-|[]] _. left. reflexivity.
  - repeat constructor; simpl; tauto.
  - intros q H. unfold inline_policy_allows in H. simpl in H.
    rewrite orb_false_r in H.
    apply (statement_allows_conditions executorStatement q project_tag_condition H).
    left. reflexivity.
Qed.

(** A stop request on an instance tagged for the project: the policy lets
    it through, and the theorem reads the tag back from the request. *)
Lemma tagged_stop_request_is_scoped :
  context_lookup "aws:ResourceTag/project"
    [("aws:ResourceTag/project", "spendoptimo")] = Some "spendoptimo".
Proof.
  exact (proj2 (proj2 (proj2 executor_actions_tag_scoped))
           {| req_action := "ec2:StopInstances";
              req_resource := "arn:aws:ec2:us-east-1:111122223333:instance/i-0abc";
              req_context := [("aws:ResourceTag/project", "spendoptimo")] |}
           eq_refl).
Defined.

(** *** The role with its managed policies

    What a role may do is what its inline policy allows together with what
    each managed policy attached to it allows.  The documents of managed
    policies are not in the repository: [managed] resolves the name of one
    to its statements. *)
Definition role_allows (managed : string -> list PolicyStatement) (r : Role) (q : Request)
  : bool :=
  inline_policy_allows r q
  || existsb (fun name => existsb (fun s => statement_allows s q) (managed name))
             (managedPolicies r).

(** The document AWS publishes under the name
    [service-role/AWSLambdaBasicExecutionRole]: writing to CloudWatch Logs,
    on every resource, with no condition. *)
Definition AWSLambdaBasicExecutionRole : list PolicyStatement :=
  [ {| actions := [ "logs:CreateLogGroup"; "logs:CreateLogStream"; "logs:PutLogEvents" ];
       resources := [ "*" ];
       conditions := [] |} ].

Definition aws_managed (name : string) : list PolicyStatement :=
  if String.eqb name "service-role/AWSLambdaBasicExecutionRole"
  then AWSLambdaBasicExecutionRole else [].

(** Creating a log group that carries no tag. *)
Definition create_untagged_log_group : Request :=
  {| req_action := "logs:CreateLogGroup";
     req_resource := "arn:aws:logs:us-east-1:111122223333:log-group:/aws/lambda/executor";
     req_context := [] |}.

(** C10, as stated, fails for the role as a whole: with the managed policy
    the stack attaches to it, the executor role may create a log group that
    has no project tag, which its inline policy alone refuses. *)
Lemma executor_role_creates_untagged_log_group :
  managedPolicies executorRole = [ "service-role/AWSLambdaBasicExecutionRole" ] /\
  role_allows aws_managed executorRole create_untagged_log_group = true /\
  inline_policy_allows executorRole create_untagged_log_group = false /\
  context_lookup "aws:ResourceTag/project" (req_context create_untagged_log_group) = None.
Proof. repeat split. Qed.

End Iam.

(* ===================================================================== *)
(** ** REST API of ApiStack (infra/lib/api-stack.ts)                      *)
(* ===================================================================== *)

Module Apigw.

(** A resource is named by its path parts below the root ([[]]). *)
Definition Path := list string.

(** The one method option the stack sets; [None] is an option left out. *)
Record MethodOptions := { apiKeyRequired : option bool }.

Record Method := {
  resourcePath : Path;
  httpMethod : string;
  requiresApiKey : bool
}.

Record RestApi := {
  restApiName : string;
  stageName : string;
  defaultMethodOptions : MethodOptions;
  resources : list Path;
  methods : list Method
}.

Definition noOptions : MethodOptions := {| apiKeyRequired := None |}.

(** [options.apiKeyRequired ?? defaultMethodOptions.apiKeyRequired]; a
    method for which neither is given does not require a key. *)
Definition resolve_key (opts defaults : MethodOptions) : bool :=
  match apiKeyRequired opts with
  | Some b => b
  | None => match apiKeyRequired defaults with
            | Some b => b
            | None => false
            end
  end.

(** [new LambdaRestApi(..., { proxy: false, ... })]: only the root exists. *)
Definition LambdaRestApi (name stage : string) (defaults : MethodOptions) : RestApi :=
  {| restApiName := name; stageName := stage; defaultMethodOptions := defaults;
     resources := [[]]; methods := [] |}.

Definition addResource (parent : Path) (part : string) (api : RestApi) : Path * RestApi :=
  let p := parent ++ [part] in
  (p, {| restApiName := restApiName api; stageName := stageName api;
         defaultMethodOptions := defaultMethodOptions api;
         resources := resources api ++ [p]; methods := methods api |}).

Fixpoint path_eqb (p q : Path) : bool :=
  match p, q with
  | [], [] => true
  | a :: p', b :: q' => String.eqb a b && path_eqb p' q'
  | _, _ => false
  end.

Definition find_method (api : RestApi) (p : Path) (verb : string) : option Method :=
  List.find (fun m => path_eqb (resourcePath m) p && String.eqb (httpMethod m) verb)
            (methods api).

Definition addMethod (p : Path) (verb : string) (opts : MethodOptions) (api : RestApi) : RestApi :=
  {| restApiName := restApiName api; stageName := stageName api;
     defaultMethodOptions := defaultMethodOptions api;
     resources := resources api;
     methods := methods api ++
       [ {| resourcePath := p; httpMethod := verb;
            requiresApiKey := resolve_key opts (defaultMethodOptions api) |} ] |}.

(** The preflight method the library generates is an OPTIONS method that
    never asks for a key. *)
Definition addCorsPreflight (p : Path) (api : RestApi) : RestApi :=
  addMethod p "OPTIONS" {| apiKeyRequired := Some false |} api.

(** [addProxy({ anyMethod })]: a greedy child [{proxy+}]; with [anyMethod]
    it gets an ANY method, and a proxy mounted under the root registers the
    same method on the root too (unless the root already has it), so that
    the empty path is proxied as well. *)
Definition addProxy (parent : Path) (anyMethod : bool) (api : RestApi) : RestApi :=
  let '(p, api1) := addResource parent "{proxy+}" api in
  if anyMethod then
    let api2 :=
      match parent, find_method api1 [] "ANY" with
      | [], None => addMethod [] "ANY" noOptions api1
      | _, _ => api1
      end in
    addMethod p "ANY" noOptions api2
  else api1.

(** The constructor's route definitions, in source order. *)
Definition api : RestApi :=
  let a := LambdaRestApi "SpendOptimoApi" "prod" {| apiKeyRequired := Some true |} in
  let '(v1, a) := addResource [] "v1" a in
  let '(chat, a) := addResource v1 "chat" a in
  let a := addCorsPreflight chat a in
  let a := addMethod chat "POST" {| apiKeyRequired := Some false |} a in
  let '(analyze, a) := addResource v1 "analyze" a in
  let a := addCorsPreflight analyze a in
  let a := addMethod analyze "GET" {| apiKeyRequired := Some false |} a in
  let '(recommend, a) := addResource v1 "recommend" a in
  let a := addCorsPreflight recommend a in
  let a := addMethod recommend "GET" {| apiKeyRequired := Some false |} a in
  let '(automation, a) := addResource v1 "automation" a in
  let a := addCorsPreflight automation a in
  let a := addMethod automation "POST" {| apiKeyRequired := Some false |} a in
  addProxy [] true a.

(** Whether a registered method was put there by the greedy proxy. *)
Definition proxy_method (m : Method) : Prop :=
  httpMethod m = "ANY" /\ (resourcePath m = ["{proxy+}"] \/ resourcePath m = []).

Example api_resources :
  resources api =
    [ []; ["v1"]; ["v1"; "chat"]; ["v1"; "analyze"]; ["v1"; "recommend"];
      ["v1"; "automation"]; ["{proxy+}"] ].
Proof. reflexivity. Qed.

Definition keyless (p : Path) (verb : string) : Method :=
  {| resourcePath := p; httpMethod := verb; requiresApiKey := false |}.

Definition keyed (p : Path) (verb : string) : Method :=
  {| resourcePath := p; httpMethod := verb; requiresApiKey := true |}.

Lemma api_methods :
  methods api =
    [ keyless ["v1"; "chat"] "OPTIONS"; keyless ["v1"; "chat"] "POST";
      keyless ["v1"; "analyze"] "OPTIONS"; keyless ["v1"; "analyze"] "GET";
      keyless ["v1"; "recommend"] "OPTIONS"; keyless ["v1"; "recommend"] "GET";
      keyless ["v1"; "automation"] "OPTIONS"; keyless ["v1"; "automation"] "POST";
      keyed [] "ANY"; keyed ["{proxy+}"] "ANY" ].
Proof. reflexivity. Qed.

Example proxy_requires_key :
  requiresApiKey <$> find_method api ["{proxy+}"] "ANY" = Some true.
Proof. reflexivity. Qed.

(** C9. The API's default method options require an API key, yet
    POST /v1/chat, GET /v1/analyze, GET /v1/recommend and
    POST /v1/automation are registered with apiKeyRequired false, so the
    automation endpoint is served without a key; the methods that do require
    one are exactly those the greedy proxy registered. *)
Theorem automation_route_needs_no_api_key :
  apiKeyRequired (defaultMethodOptions api) = Some true /\
  requiresApiKey <$> find_method api ["v1"; "chat"] "POST" = Some false /\
  requiresApiKey <$> find_method api ["v1"; "analyze"] "GET" = Some false /\
  requiresApiKey <$> find_method api ["v1"; "recommend"] "GET" = Some false /\
  requiresApiKey <$> find_method api ["v1"; "automation"] "POST" = Some false /\
  (forall m, In m (methods api) -> (requiresApiKey m = true <-> proxy_method m)).
Proof.
  repeat (split; [reflexivity|]).
  intros m Hin. unfold proxy_method.
  rewrite api_methods in Hin. cbn [In] in Hin.
  repeat (destruct Hin as [<-|Hin]); try contradiction; cbn;
    (split; [try discriminate; auto | try (intros [[=] _]); auto]).
Qed.

(** The proxy's ANY method is registered and requires the key. *)
Lemma greedy_proxy_is_keyed :
  proxy_method (keyed ["{proxy+}"] "ANY").
Proof.
  apply (proj2 (proj2 (proj2 (proj2 (proj2 automation_route_needs_no_api_key))))
           (keyed ["{proxy+}"] "ANY")).
  - rewrite api_methods. cbn [In]. tauto.
  - reflexivity.
Defined.

End Apigw.

(* ===================================================================== *)
(** ** The automation state machine of ApiStack                           *)
(* ===================================================================== *)

Module Sfn.

#[warnings="-register-all"]
Inductive Json :=
| JNull
| JStr (s : string)
| JArr (items : list Json)
| JObj (fields : list (string * Json)).

(** The states a definition may chain. [Pass] copies its input to its
    output, or emits [result] when one is given; [Task] hands its input to
    the named resource and is the only state that does work. [next = None]
    marks an end state. *)
Inductive State :=
| Pass (result : option Json) (next : option string)
| Task (resource : string) (next : option string).

Record StateMachine := {
  stateMachineName : string;
  startAt : string;
  states : list (string * State);
  timeoutMinutes : nat
}.

Inductive Outcome :=
| ExecutionSucceeded (output : Json)
| ExecutionFailed (error : string).

Fixpoint lookup_state (name : string) (l : list (string * State)) : option State :=
  match l with
  | [] => None
  | (n, s) :: rest => if String.eqb n name then Some s else lookup_state name rest
  end.

Section Interpreter.

(** What a task resource answers on an input. *)
Variable invoke : string -> Json -> Json.

(** Runs from state [cur]; returns the outcome and the resources invoked,
    in order. Running out of [fuel] is the execution timing out. *)
Fixpoint run (fuel : nat) (sts : list (string * State)) (cur : string) (input : Json)
  : Outcome * list string :=
  match fuel with
  | O => (ExecutionFailed "States.Timeout", [])
  | S fuel' =>
      match lookup_state cur sts with
      | None => (ExecutionFailed "States.Runtime", [])
      | Some (Pass result next) =>
          let output := match result with Some r => r | None => input end in
          match next with
          | None => (ExecutionSucceeded output, [])
          | Some n => run fuel' sts n output
          end
      | Some (Task resource next) =>
          let output := invoke resource input in
          match next with
          | None => (ExecutionSucceeded output, [resource])
          | Some n => let '(o, tr) := run fuel' sts n output in (o, resource :: tr)
          end
      end
  end.

Definition execute (fuel : nat) (m : StateMachine) (input : Json) : Outcome * list string :=
  run fuel (states m) (startAt m) input.

End Interpreter.

Section Automation.

(** [new Date().toISOString()], evaluated once when the stack is
    synthesized. *)
Variable synthTime : string.

Definition workflowSteps : list string :=
  [ "collect_cost_evidence"; "collect_optimizer_signals"; "draft_action_plan";
    "approve_plan"; "apply_fix"; "verify_outcome" ].

Definition automationResult : Json :=
  JObj [ ("message", JStr "Strands workflow executed successfully");
         ("timestamp", JStr synthTime);
         ("workflow", JArr (JStr <$> workflowSteps)) ].

Definition automationStateMachine : StateMachine :=
  {| stateMachineName := "SpendOptimoAutomation";
     startAt := "AutomationPass";
     states := [ ("AutomationPass", Pass (Some automationResult) None) ];
     timeoutMinutes := 15 |}.

End Automation.

Definition field (k : string) (j : Json) : option Json :=
  match j with
  | JObj fs => snd <$> List.find (fun kv => String.eqb (fst kv) k) fs
  | _ => None
  end.

Example chain_runs_tasks :
  execute (fun r _ => JStr r) 5
    {| stateMachineName := "t"; startAt := "a";
       states := [("a", Task "fn-a" (Some "b")); ("b", Pass None None)];
       timeoutMinutes := 1 |} JNull
  = (ExecutionSucceeded (JStr "fn-a"), ["fn-a"]).
Proof. reflexivity. Qed.

(** C8. The SpendOptimoAutomation state machine is one Pass state: whatever
    the input and whatever the task resources would answer, an execution
    succeeds with the same object (the message "Strands workflow executed
    successfully" and the six workflow step names, next to the synthesis
    timestamp) and invokes nothing. *)
Theorem automation_state_machine_is_a_single_pass :
  forall (synthTime : string) (invoke : string -> Json -> Json) (input : Json) (fuel : nat),
    states (automationStateMachine synthTime)
      = [ ("AutomationPass", Pass (Some (automationResult synthTime)) None) ] /\
    execute invoke (S fuel) (automationStateMachine synthTime) input
      = (ExecutionSucceeded (automationResult synthTime), []) /\
    field "message" (automationResult synthTime)
      = Some (JStr "Strands workflow executed successfully") /\
    field "workflow" (automationResult synthTime)
      = Some (JArr [ JStr "collect_cost_evidence"; JStr "collect_optimizer_signals";
                     JStr "draft_action_plan"; JStr "approve_plan";
                     JStr "apply_fix"; JStr "verify_outcome" ]).
Proof.
  intros synthTime invoke input fuel.
  split; [reflexivity|]. split.
  - unfold execute, automationStateMachine. cbn [states startAt run].
    cbn [lookup_state]. rewrite String.eqb_refl. reflexivity.
  - split; reflexivity.
Qed.

End Sfn.

(* ===================================================================== *)
(** ** The remediation workflow (specification, sections 3 and 4)         *)
(* ===================================================================== *)

Module Workflow.

Inductive ResourceKind := Compute | ObjectStore | Function | Database | Volume.

Inductive StepKind := Describe | PreconditionCheck | Mutate | Verify | Compensate.

Inductive Status :=
| Pending | Validating | Planning | Executing | Compensating
| Succeeded | Failed | Rejected.

(** An opaque key-value map, kept in the order given. *)
Definition Config := list (string * string).

(** [estimated_monthly_savings] is a decimal amount, held in minor units. *)
Record Recommendation := {
  resource_kind : ResourceKind;
  resource_id : string;
  current_config : Config;
  target_config : Config;
  estimated_monthly_savings : Z;
  reason : string
}.

Record Payload := {
  operation : string;
  parameters : Config
}.

Record Step := {
  kind : StepKind;
  payload : Payload;
  idempotency_key : string
}.

Definition Plan := list Step.

Inductive Error :=
| ValidationError (why : string)
| TransientError
| PreconditionFailed
| NotFoundError
| VerificationMismatch
| CompensationError (original during_rollback : Error).

Inductive Outcome (A : Type) :=
| Ok (a : A)
| Err (e : Error).
Arguments Ok {A} a.
Arguments Err {A} e.

Inductive Verdict :=
| Accepted
| Rejection (why : string).

Record ExecutionState := {
  status : Status;
  current_step_index : nat;
  attempt_count : gmap nat nat;
  last_error : option Error
}.

(** One line of the audit sink: a step attempted and its result ([None]
    for success). The position in the log stands for its time. *)
Record AuditRecord := {
  a_resource : string;
  a_kind : StepKind;
  a_operation : string;
  a_key : string;
  a_attempt : nat;
  a_result : option Error
}.

Definition terminal (s : Status) : bool :=
  match s with
  | Succeeded | Failed | Rejected => true
  | _ => false
  end.

(** *** ExecutionPlanner (4.4) *)

Definition kind_name (k : StepKind) : string :=
  match k with
  | Describe => "Describe"
  | PreconditionCheck => "PreconditionCheck"
  | Mutate => "Mutate"
  | Verify => "Verify"
  | Compensate => "Compensate"
  end.

(** Modelled from the spec: the step built for a recommendation. The
    repository's sources hold no planner; section 3 gives the fields of a
    step (the idempotency key is made of the resource id and the step kind)
    and the mutation and the verification work on the target
    configuration. *)
Definition make_step (r : Recommendation) (k : StepKind) (op : string) : Step :=
  {| kind := k;
     payload := {| operation := op;
                   parameters := match k with
                                 | Describe => []
                                 | _ => target_config r
                                 end |};
     idempotency_key := (resource_id r ++ ":" ++ kind_name k)%string |}.

(** Modelled from the spec: [plan], the canonical step sequence of each
    resource kind as listed in section 4.4 (the planner itself is not in
    the repository's sources). *)
Definition plan (r : Recommendation) : Plan :=
  match resource_kind r with
  | Compute =>
      [ make_step r Describe "describe";
        make_step r PreconditionCheck "attached-volume-compatibility";
        make_step r Mutate "stop";
        make_step r Mutate "change-type";
        make_step r Mutate "start";
        make_step r Verify "verify" ]
  | ObjectStore =>
      [ make_step r Describe "describe";
        make_step r Mutate "put-lifecycle-policy";
        make_step r Verify "verify" ]
  | Function =>
      [ make_step r Describe "describe";
        make_step r Mutate "update-config";
        make_step r Verify "verify" ]
  | Database =>
      [ make_step r Describe "describe";
        make_step r Mutate "modify-instance";
        make_step r Verify "verify" ]
  | Volume =>
      [ make_step r Describe "describe";
        make_step r PreconditionCheck "not-in-forbidden-state";
        make_step r Mutate "modify-type-or-size";
        make_step r Verify "verify" ]
  end.

(** What a step is, without the recommendation's own data. *)
Definition step_shape (s : Step) : StepKind * string := (kind s, operation (payload s)).

Section Engine.

(** The provider behind the adapters, the snapshot [describe] returns and
    the policy rule set are left to the backend. Wall-clock matters of the
    engine (backoff delays between attempts, the per-recommendation time
    ceiling) have no counterpart here: a transition is one adapter call at
    most, and the order of transitions is all the time there is. *)
Variable World : Type.
Variable CurrentState : Type.
Variable Policy : Type.

(** The capability set of a resource adapter (4.2). Each call may change
    the provider's state; [precondition] is the check a PreconditionCheck
    step makes on the last snapshot, and [compensate] the inverse the
    adapter supplies for a mutation. *)
Record Adapter := {
  describe : string -> World -> Outcome CurrentState * World;
  mutate : string -> Payload -> string -> World -> Outcome unit * World;
  verify : string -> Config -> World -> Outcome bool * World;
  compensate : string -> Payload -> World -> Outcome unit * World;
  precondition : CurrentState -> Payload -> bool
}.

(** [PolicyStore.lookup] and the adapter registry; [None] is NotFound. *)
Variable policies : ResourceKind -> option Policy.
Variable adapters : ResourceKind -> option Adapter.
Variable violates : Policy -> Config -> bool.

(** Attempts allowed per step before a transient error becomes final. *)
Variable max_attempts : nat.

(** *** RecommendationValidator (4.3) *)

(** Modelled from the spec: [validate], the four admission checks of
    section 4.3 (no validator is in the repository's sources). *)
Definition validate (r : Recommendation) : Verdict :=
  match policies (resource_kind r), adapters (resource_kind r) with
  | Some pol, Some _ =>
      if violates pol (target_config r) then
        Rejection "the target configuration violates the cost policy"
      else if (estimated_monthly_savings r <? 0)%Z then
        Rejection "the estimated monthly savings are negative"
      else if String.eqb (resource_id r) "" then
        Rejection "the resource id is empty"
      else Accepted
  | _, _ => Rejection "no adapter and policy are registered for the resource kind"
  end.

(** *** WorkflowEngine (4.5) *)

(** A recommendation in flight: its execution state, its plan, the last
    snapshot, the mutations that succeeded (latest first) and the verified
    configuration once it succeeded. *)
Record Worker := {
  rec : Recommendation;
  st : ExecutionState;
  steps : Plan;
  snapshot : option CurrentState;
  applied : list Step;
  final_config : option Config
}.

Definition init (r : Recommendation) : Worker :=
  {| rec := r;
     st := {| status := Pending; current_step_index := 0;
              attempt_count := ∅; last_error := None |};
     steps := []; snapshot := None; applied := []; final_config := None |}.

Definition with_state (f : ExecutionState -> ExecutionState) (w : Worker) : Worker :=
  {| rec := rec w; st := f (st w); steps := steps w; snapshot := snapshot w;
     applied := applied w; final_config := final_config w |}.

Definition goto (s : Status) : Worker -> Worker :=
  with_state (fun e => {| status := s; current_step_index := current_step_index e;
                          attempt_count := attempt_count e; last_error := last_error e |}).

Definition note_error (err : Error) : Worker -> Worker :=
  with_state (fun e => {| status := status e; current_step_index := current_step_index e;
                          attempt_count := attempt_count e; last_error := Some err |}).

Definition next_step : Worker -> Worker :=
  with_state (fun e => {| status := status e; current_step_index := S (current_step_index e);
                          attempt_count := attempt_count e; last_error := last_error e |}).

Definition attempts (w : Worker) : nat :=
  default 0 (attempt_count (st w) !! current_step_index (st w)).

Definition bump_attempt (w : Worker) : Worker :=
  with_state (fun e => {| status := status e; current_step_index := current_step_index e;
                          attempt_count := <[current_step_index e := S (attempts w)]> (attempt_count e);
                          last_error := last_error e |}) w.

Definition with_snapshot (c : CurrentState) (w : Worker) : Worker :=
  {| rec := rec w; st := st w; steps := steps w; snapshot := Some c;
     applied := applied w; final_config := final_config w |}.

Definition with_applied (l : list Step) (w : Worker) : Worker :=
  {| rec := rec w; st := st w; steps := steps w; snapshot := snapshot w;
     applied := l; final_config := final_config w |}.

Definition with_plan (p : Plan) (w : Worker) : Worker :=
  {| rec := rec w;
     st := {| status := Executing; current_step_index := 0;
              attempt_count := ∅; last_error := last_error (st w) |};
     steps := p; snapshot := snapshot w; applied := applied w;
     final_config := final_config w |}.

Definition succeed (w : Worker) : Worker :=
  {| rec := rec w;
     st := {| status := Succeeded; current_step_index := current_step_index (st w);
              attempt_count := attempt_count (st w); last_error := last_error (st w) |};
     steps := steps w; snapshot := snapshot w; applied := applied w;
     final_config := Some (target_config (rec w)) |}.

(** A final failure of a Describe, PreconditionCheck or Verify call: roll
    back if a mutation already went through, otherwise fail. *)
Definition step_failed (err : Error) (w : Worker) : Worker :=
  goto (match applied w with [] => Failed | _ :: _ => Compensating end) (note_error err w).

(** A final failure of a Mutate call, and a verification that disagrees:
    straight to the rollback. *)
Definition start_compensating (err : Error) (w : Worker) : Worker :=
  goto Compensating (note_error err w).

(** A transient error is retried while attempts remain; after that it is
    final and [exhausted] decides where the worker goes. *)
Definition on_transient (exhausted : Error -> Worker -> Worker) (w : Worker) : Worker :=
  if decide (S (attempts w) < max_attempts) then bump_attempt w
  else exhausted TransientError w.

Definition record_of (w : Worker) (k : StepKind) (s : Step) (res : option Error) : AuditRecord :=
  {| a_resource := resource_id (rec w); a_kind := k;
     a_operation := operation (payload s); a_key := idempotency_key s;
     a_attempt := S (attempts w); a_result := res |}.

Definition error_of {A} (o : Outcome A) : option Error :=
  match o with Ok _ => None | Err e => Some e end.

(** Modelled from the spec: one attempt of the step the worker stands at,
    as step 3 of the algorithm in section 4.5 treats each step kind (the
    engine is not in the repository's sources). *)
Definition exec_step (a : Adapter) (s : Step) (w : Worker) (world : World)
  : Worker * World * option AuditRecord :=
  let rid := resource_id (rec w) in
  match kind s with
  | Describe =>
      let '(o, world') := describe a rid world in
      let w' := match o with
                | Ok c => next_step (with_snapshot c w)
                | Err TransientError => on_transient step_failed w
                | Err e => step_failed e w
                end in
      (w', world', Some (record_of w Describe s (error_of o)))
  | PreconditionCheck =>
      let ok := match snapshot w with
                | Some c => precondition a c (payload s)
                | None => false
                end in
      if ok then (next_step w, world, Some (record_of w PreconditionCheck s None))
      else (step_failed PreconditionFailed w, world,
            Some (record_of w PreconditionCheck s (Some PreconditionFailed)))
  | Mutate =>
      let '(o, world') := mutate a rid (payload s) (idempotency_key s) world in
      let w' := match o with
                | Ok _ => next_step (with_applied (s :: applied w) w)
                | Err TransientError => on_transient start_compensating w
                | Err e => start_compensating e w
                end in
      (w', world', Some (record_of w Mutate s (error_of o)))
  | Verify =>
      let '(o, world') := verify a rid (parameters (payload s)) world in
      let w' := match o with
                | Ok true => next_step w
                | Ok false => start_compensating VerificationMismatch w
                | Err TransientError => on_transient step_failed w
                | Err e => step_failed e w
                end in
      (w', world', Some (record_of w Verify s
                           (match o with
                            | Ok true => None
                            | Ok false => Some VerificationMismatch
                            | Err e => Some e
                            end)))
  | Compensate =>
      (step_failed (ValidationError "a plan holds no Compensate step") w, world, None)
  end.

(** Modelled from the spec: one rollback call of step 4 in section 4.5,
    the inverse of the latest mutation that succeeded (the engine is not in
    the repository's sources). A rollback that fails ends the
    recommendation with both errors. *)
Definition compensate_step (a : Adapter) (s : Step) (rest : list Step) (w : Worker) (world : World)
  : Worker * World * option AuditRecord :=
  let '(o, world') := compensate a (resource_id (rec w)) (payload s) world in
  let w' := match o with
            | Ok _ => with_applied rest w
            | Err e =>
                let original := default e (last_error (st w)) in
                goto Failed (note_error (CompensationError original e) (with_applied rest w))
            end in
  (w', world', Some (record_of w Compensate s (error_of o))).

Definition no_adapter : Error :=
  ValidationError "no adapter is registered for the resource kind".

(** Modelled from the spec: [advance], one transition of the state machine
    of section 4.5 (the engine is not in the repository's sources). It
    returns the record written to the audit sink, if the transition called
    the adapter. *)
Definition advance (w : Worker) (world : World) : Worker * World * option AuditRecord :=
  match status (st w) with
  | Pending => (goto Validating w, world, None)
  | Validating =>
      match validate (rec w) with
      | Accepted => (goto Planning w, world, None)
      | Rejection why => (goto Rejected (note_error (ValidationError why) w), world, None)
      end
  | Planning => (with_plan (plan (rec w)) w, world, None)
  | Executing =>
      match steps w !! current_step_index (st w) with
      | None => (succeed w, world, None)
      | Some s =>
          match adapters (resource_kind (rec w)) with
          | Some a => exec_step a s w world
          | None => (step_failed no_adapter w, world, None)
          end
      end
  | Compensating =>
      match applied w with
      | [] => (goto Failed w, world, None)
      | s :: rest =>
          match adapters (resource_kind (rec w)) with
          | Some a => compensate_step a s rest w world
          | None => (goto Failed (note_error no_adapter w), world, None)
          end
      end
  | Succeeded | Failed | Rejected => (w, world, None)
  end.

(** What one transition leaves behind: the audit record and the status
    reached. *)
Record Event := {
  ev_record : option AuditRecord;
  ev_status : Status
}.

(** Runs a worker until it is terminal or [fuel] transitions were made. *)
Fixpoint run (fuel : nat) (w : Worker) (world : World) : Worker * World * list Event :=
  match fuel with
  | O => (w, world, [])
  | S fuel' =>
      if terminal (status (st w)) then (w, world, [])
      else
        let '(w1, world1, r) := advance w world in
        let '(w2, world2, tr) := run fuel' w1 world1 in
        (w2, world2, {| ev_record := r; ev_status := status (st w1) |} :: tr)
  end.

Definition worker_of (x : Worker * World * list Event) : Worker := x.1.1.
Definition world_of (x : Worker * World * list Event) : World := x.1.2.
Definition trace_of (x : Worker * World * list Event) : list Event := x.2.

Definition audit_of (tr : list Event) : list AuditRecord := omap ev_record tr.


(** *** Termination of a worker *)









Lemma run_unfold (fuel : nat) (w : Worker) (world : World) :
  terminal (status (st w)) = false ->
  run (S fuel) w world =
    (let '(w1, world1, r) := advance w world in
     let '(w2, world2, tr) := run fuel w1 world1 in
     (w2, world2, {| ev_record := r; ev_status := status (st w1) |} :: tr)).
Proof. intros Ht. cbn [run]. rewrite Ht. reflexivity. Qed.

Lemma run_terminal (fuel : nat) (w : Worker) (world : World) :
  terminal (status (st w)) = true -> run fuel w world = (w, world, []).
Proof. intros Ht. destruct fuel; cbn [run]; [|rewrite Ht]; reflexivity. Qed.


(** *** Rollback *)







(** *** Admission *)

Lemma validate_unknown_kind (r : Recommendation) :
  policies (resource_kind r) = None \/ adapters (resource_kind r) = None ->
  validate r = Rejection "no adapter and policy are registered for the resource kind".
Proof.
  intros [H|H]; unfold validate; rewrite H; [reflexivity|].
  destruct (policies (resource_kind r)); reflexivity.
Qed.

(** C5. A recommendation whose resource kind has no registered adapter or
    no registered policy is rejected by validate; running it to the end
    writes no step to the audit sink and leaves the provider untouched (no
    describe, mutate or verify call is made), and it ends Rejected with the
    validator's reason. *)
Theorem unknown_kind_rejected_without_adapter_call :
  forall (r : Recommendation) (world : World) (fuel : nat),
    policies (resource_kind r) = None \/ adapters (resource_kind r) = None ->
    (exists why, validate r = Rejection why) /\
    audit_of (trace_of (run fuel (init r) world)) = [] /\
    world_of (run fuel (init r) world) = world /\
    (2 <= fuel ->
     status (st (worker_of (run fuel (init r) world))) = Rejected /\
     exists why, last_error (st (worker_of (run fuel (init r) world)))
                 = Some (ValidationError why)).
Proof.
  intros r world fuel Hunknown.
  pose proof (validate_unknown_kind r Hunknown) as Hval.
  split; [eauto|].
  destruct fuel as [|[|fuel]].
  - cbn. repeat split; auto; lia.
  - cbn. repeat split; auto; lia.
  - rewrite run_unfold by reflexivity. cbn [advance init st status].
    change (goto Validating (init r)) with
      {| rec := r;
         st := {| status := Validating; current_step_index := 0;
                  attempt_count := ∅; last_error := None |};
         steps := []; snapshot := None; applied := []; final_config := None |}.
    rewrite run_unfold by reflexivity. cbn [advance st status rec]. rewrite Hval.
    rewrite run_terminal by reflexivity. cbn.
    repeat split; eauto.
Qed.

End Engine.

(** C1. The planner's step sequence depends on the resource kind alone:
    two recommendations of one kind get the same ordered sequence of step
    kinds and operations, whatever their ids and configurations; for
    Compute it is Describe, PreconditionCheck, Mutate(stop),
    Mutate(change-type), Mutate(start), Verify. *)
Theorem plan_fixed_per_kind :
  forall r1 r2 : Recommendation,
    resource_kind r1 = resource_kind r2 ->
    kind <$> plan r1 = kind <$> plan r2 /\
    step_shape <$> plan r1 = step_shape <$> plan r2 /\
    (resource_kind r1 = Compute ->
     step_shape <$> plan r1 =
       [ (Describe, "describe"); (PreconditionCheck, "attached-volume-compatibility");
         (Mutate, "stop"); (Mutate, "change-type"); (Mutate, "start");
         (Verify, "verify") ]).
Proof.
  intros r1 r2 Hk. unfold plan. rewrite <- Hk.
  destruct (resource_kind r1); repeat split; try reflexivity; discriminate.
Qed.

End Workflow.

(* ===================================================================== *)
(** ** The scenarios of section 8 on an in-memory backend                 *)
(* ===================================================================== *)

Module Scenario.
Import Workflow.

(** A compute instance of the test backend. [volumes_fit] says whether the
    attached volumes allow the instance to start with its present type. *)
Record Instance := {
  instance_type : string;
  running : bool;
  volumes_fit : string -> bool;
  previous_type : option string
}.

Definition Cloud := gmap string Instance.

Fixpoint config_get (k : string) (c : Config) : option string :=
  match c with
  | [] => None
  | (k', v) :: rest => if String.eqb k k' then Some v else config_get k rest
  end.

Definition set_running (b : bool) (i : Instance) : Instance :=
  {| instance_type := instance_type i; running := b;
     volumes_fit := volumes_fit i; previous_type := previous_type i |}.

Definition set_type (t : string) (i : Instance) : Instance :=
  {| instance_type := t; running := running i;
     volumes_fit := volumes_fit i; previous_type := Some (instance_type i) |}.

Definition revert_type (i : Instance) : Instance :=
  {| instance_type := default (instance_type i) (previous_type i); running := running i;
     volumes_fit := volumes_fit i; previous_type := None |}.

Definition compute_describe (id : string) (c : Cloud) : Outcome Instance * Cloud :=
  match c !! id with
  | Some i => (Ok i, c)
  | None => (Err NotFoundError, c)
  end.

Definition compute_mutate (id : string) (p : Payload) (key : string) (c : Cloud)
  : Outcome unit * Cloud :=
  match c !! id with
  | None => (Err NotFoundError, c)
  | Some i =>
      if String.eqb (operation p) "stop" then (Ok (), <[id := set_running false i]> c)
      else if String.eqb (operation p) "change-type" then
        match running i, config_get "type" (parameters p) with
        | false, Some t => (Ok (), <[id := set_type t i]> c)
        | _, _ => (Err PreconditionFailed, c)
        end
      else if String.eqb (operation p) "start" then
        if volumes_fit i (instance_type i) then (Ok (), <[id := set_running true i]> c)
        else (Err PreconditionFailed, c)
      else (Err PreconditionFailed, c)
  end.

Definition compute_verify (id : string) (expected : Config) (c : Cloud)
  : Outcome bool * Cloud :=
  match c !! id with
  | None => (Err NotFoundError, c)
  | Some i =>
      (Ok (running i && bool_decide (config_get "type" expected = Some (instance_type i))), c)
  end.

Definition compute_compensate (id : string) (p : Payload) (c : Cloud)
  : Outcome unit * Cloud :=
  match c !! id with
  | None => (Err NotFoundError, c)
  | Some i =>
      if String.eqb (operation p) "stop" then (Ok (), <[id := set_running true i]> c)
      else if String.eqb (operation p) "change-type" then (Ok (), <[id := revert_type i]> c)
      else (Ok (), c)
  end.

Definition computeAdapter : Adapter Cloud Instance :=
  {| describe := compute_describe;
     mutate := compute_mutate;
     verify := compute_verify;
     compensate := compute_compensate;
     precondition := fun _ _ => true |}.

(** Only compute instances are registered with this backend. *)
Definition adapters (k : ResourceKind) : option (Adapter Cloud Instance) :=
  match k with
  | Compute => Some computeAdapter
  | _ => None
  end.

(** A policy is its list of disallowed type patterns. *)
Definition policies (k : ResourceKind) : option (list string) :=
  match k with
  | Compute => Some ["r5.*"; "m5.*"; "c5.*"; "t2.*"]
  | _ => None
  end.

Definition violates (pol : list string) (c : Config) : bool :=
  match config_get "type" c with
  | Some t => existsb (fun p => Iam.glob p t) pol
  | None => false
  end.

Definition engine_run :=
  run Cloud Instance (list string) policies adapters violates 3.

Definition rightsize : Recommendation :=
  {| resource_kind := Compute; resource_id := "r-1";
     current_config := [("type", "r5.large")];
     target_config := [("type", "t3.medium")];
     estimated_monthly_savings := 5000;
     reason := "Policy violation" |}.

Definition resize_database : Recommendation :=
  {| resource_kind := Database; resource_id := "db-1";
     current_config := [("class", "db.m5.large")];
     target_config := [("class", "db.t3.small")];
     estimated_monthly_savings := 3000;
     reason := "Policy violation" |}.

Definition healthy : Cloud :=
  {[ "r-1" := {| instance_type := "r5.large"; running := true;
                  volumes_fit := fun _ => true; previous_type := None |} ]}.

(** The attached volume does not go with the t3 family. *)
Definition io2_attached : Cloud :=
  {[ "r-1" := {| instance_type := "r5.large"; running := true;
                  volumes_fit := fun t => negb (Iam.glob "t3.*" t);
                  previous_type := None |} ]}.

(** Scenario A: every adapter call succeeds. *)
Example scenario_A :
  let out := engine_run 40 (init Instance rightsize) healthy in
  status (st _ (worker_of _ _ out)) = Succeeded /\
  final_config _ (worker_of _ _ out) = Some [("type", "t3.medium")] /\
  (a_kind <$> audit_of (trace_of _ _ out))
    = [Describe; PreconditionCheck; Mutate; Mutate; Mutate; Verify] /\
  (instance_type <$> world_of _ _ out !! "r-1") = Some "t3.medium".
Proof. vm_compute. repeat split; reflexivity. Qed.

(** Scenario B: the start call answers PreconditionFailed. *)
Example scenario_B :
  let out := engine_run 40 (init Instance rightsize) io2_attached in
  status (st _ (worker_of _ _ out)) = Failed /\
  last_error (st _ (worker_of _ _ out)) = Some PreconditionFailed /\
  (fun r => (a_kind r, a_operation r, a_result r)) <$> audit_of (trace_of _ _ out)
    = [ (Describe, "describe", None);
        (PreconditionCheck, "attached-volume-compatibility", None);
        (Mutate, "stop", None); (Mutate, "change-type", None);
        (Mutate, "start", Some PreconditionFailed);
        (Compensate, "change-type", None); (Compensate, "stop", None) ] /\
  ((fun i => (instance_type i, running i)) <$> world_of _ _ out !! "r-1")
    = Some ("r5.large", true).
Proof. vm_compute. repeat split; reflexivity. Qed.

(** A throttling backend: the provider refuses the next [n] calls with a
    transient error and then answers. *)
Definition throttledAdapter : Adapter nat unit :=
  {| describe := fun _ n => match n with O => (Ok (), O) | S m => (Err TransientError, m) end;
     mutate := fun _ _ _ n => (Ok (), n);
     verify := fun _ _ n => (Ok true, n);
     compensate := fun _ _ n => (Ok (), n);
     precondition := fun _ _ => true |}.

Definition throttled_run :=
  run nat unit (list string) policies (fun _ => Some throttledAdapter) violates 3.

Example two_transient_errors_are_absorbed :
  let out := throttled_run 40 (init unit rightsize) 2 in
  status (st _ (worker_of _ _ out)) = Succeeded /\
  (fun r => (a_kind r, a_attempt r, a_result r)) <$> take 3 (audit_of (trace_of _ _ out))
    = [ (Describe, 1, Some TransientError); (Describe, 2, Some TransientError);
        (Describe, 3, None) ].
Proof. vm_compute. split; reflexivity. Qed.

Example three_transient_errors_fail :
  let out := throttled_run 40 (init unit rightsize) 3 in
  status (st _ (worker_of _ _ out)) = Failed /\
  last_error (st _ (worker_of _ _ out)) = Some TransientError /\
  length (audit_of (trace_of _ _ out)) = 3.
Proof. vm_compute. repeat split; reflexivity. Qed.

Example policy_violating_target_rejected :
  validate Cloud Instance (list string) policies adapters violates
    {| resource_kind := Compute; resource_id := "r-3";
       current_config := [("type", "t3.medium")];
       target_config := [("type", "r5.large")];
       estimated_monthly_savings := 0; reason := "" |}
  = Rejection "the target configuration violates the cost policy".
Proof. reflexivity. Qed.

Definition downsize : Recommendation :=
  {| resource_kind := Compute; resource_id := "r-2";
     current_config := [("type", "m5.xlarge")];
     target_config := [("type", "t3.small")];
     estimated_monthly_savings := 12000;
     reason := "Oversized" |}.


(** Two compute recommendations with different ids and configurations get
    the same step kinds. *)
Lemma plan_fixed_per_kind_on_compute :
  kind <$> plan rightsize = kind <$> plan downsize.
Proof.
  exact (proj1 (plan_fixed_per_kind rightsize downsize eq_refl)).
Defined.


(** A database recommendation on a backend that registers compute only. *)
Lemma unregistered_database_rejected :
  audit_of (trace_of _ _ (engine_run 10 (init Instance resize_database) healthy)) = [] /\
  world_of _ _ (engine_run 10 (init Instance resize_database) healthy) = healthy /\
  status (st _ (worker_of _ _ (engine_run 10 (init Instance resize_database) healthy)))
    = Rejected.
Proof.
  destruct (unknown_kind_rejected_without_adapter_call Cloud Instance (list string)
              policies adapters violates 3 resize_database healthy 10
              (or_introl eq_refl))
    as (_ & Haudit & Hworld & Hend).
  split; [exact Haudit|]. split; [exact Hworld|].
  apply Hend. lia.
Defined.

End Scenario.

(* ===================================================================== *)
(** ** The deployment scripts (deploy-all.js, deploy-ui.js)               *)
(* ===================================================================== *)

Module Node.

(** A child process as [execSync] gets it: the command line, the working
    directory ([None] for the script's own) and whether its output is
    piped back ([stdio: 'pipe']) or inherited. *)
Record Command := {
  line : string;
  cwd : option string;
  piped : bool
}.

(** What a script does to the outside: the processes it spawns and the
    paths it probes. Console output is not part of the trace. *)
Inductive Event :=
| Spawned (c : Command)
| Probed (path : string).

(** How a script ends: it returns, an exception escapes it, or it calls
    [process.exit]. *)
Inductive Outcome (A : Type) :=
| Returned (a : A)
| Threw
| Exited (code : nat).
Arguments Returned {A} a.
Arguments Threw {A}.
Arguments Exited {A} code.

Section Scripts.

(** The machine the script runs on. [execSync] answers the command's
    output, or [None] when the command fails (the call throws);
    [existsSync] is the file-system probe. *)
Variable World : Type.
Variable execSync : Command -> World -> option string * World.
Variable existsSync : string -> World -> bool.

Definition Script (A : Type) : Type := World -> Outcome A * World * list Event.

Definition ret {A} (a : A) : Script A := fun w => (Returned a, w, []).

Definition bind {A B} (m : Script A) (k : A -> Script B) : Script B :=
  fun w =>
    match m w with
    | (Returned a, w1, t1) => let '(o, w2, t2) := k a w1 in (o, w2, t1 ++ t2)
    | (Threw, w1, t1) => (Threw, w1, t1)
    | (Exited c, w1, t1) => (Exited c, w1, t1)
    end.

Definition exit {A} (code : nat) : Script A := fun w => (Exited code, w, []).

(** [try { body } catch { handler }]: only an exception is caught; an
    exit ends the process. *)
Definition try_catch {A} (body handler : Script A) : Script A :=
  fun w =>
    match body w with
    | (Threw, w1, t1) => let '(o, w2, t2) := handler w1 in (o, w2, t1 ++ t2)
    | r => r
    end.

Fixpoint for_each {A} (l : list A) (body : A -> Script unit) : Script unit :=
  match l with
  | [] => ret tt
  | x :: rest => bind (body x) (fun _ => for_each rest body)
  end.

Definition outcome_of {A} (r : Outcome A * World * list Event) : Outcome A := r.1.1.
Definition events_of {A} (r : Outcome A * World * list Event) : list Event := r.2.

(** [run(command, options)]: the command's output; with [ignoreError] a
    failure gives [null] ([None]) instead of rethrowing. *)
Definition run (command : string) (silent : bool) (dir : option string) (ignoreError : bool)
  : Script (option string) :=
  fun w =>
    let c := {| line := command; cwd := dir; piped := silent |} in
    match execSync c w with
    | (Some out, w') => (Returned (Some out), w', [Spawned c])
    | (None, w') =>
        if ignoreError then (Returned None, w', [Spawned c])
        else (Threw, w', [Spawned c])
    end.

Definition run_ (command : string) (silent : bool) (dir : option string) (ignoreError : bool)
  : Script unit :=
  bind (run command silent dir ignoreError) (fun _ => ret tt).

(** *** deploy-all.js *)

Record Check := {
  check_cmd : string;
  check_name : string;
  check_min : option string;
  check_optional : bool
}.

Definition checks : list Check :=
  [ {| check_cmd := "node --version"; check_name := "Node.js";
       check_min := Some "18.0.0"; check_optional := false |};
    {| check_cmd := "python --version"; check_name := "Python";
       check_min := Some "3.11"; check_optional := false |};
    {| check_cmd := "aws --version"; check_name := "AWS CLI";
       check_min := Some "2.0"; check_optional := false |};
    {| check_cmd := "cdk --version"; check_name := "AWS CDK";
       check_min := Some "2.0"; check_optional := false |};
    {| check_cmd := "docker --version"; check_name := "Docker";
       check_min := None; check_optional := true |} ].

Definition checkPrerequisites : Script unit :=
  for_each checks (fun c =>
    try_catch (run_ (check_cmd c) true None false)
              (if check_optional c then ret tt else exit 1)).

Definition installDependencies : Script unit :=
  bind (run_ "npm install" false (Some "infra") false) (fun _ =>
  bind (fun w => (Returned (existsSync "api/requirements.txt" w), w,
                  [Probed "api/requirements.txt"])) (fun present =>
  bind (if present : bool then ret tt else exit 1) (fun _ =>
  run_ "npm install" false (Some "webapp") false))).

Definition bootstrapCDK : Script unit :=
  try_catch
    (run_ "aws cloudformation describe-stacks --stack-name CDKToolkit" true None true)
    (run_ "npx cdk bootstrap" false (Some "infra") false).

Definition deploy_command (stackName : string) : Command :=
  {| line := ("npx cdk deploy " ++ stackName ++ " --require-approval never")%string;
     cwd := Some "infra"; piped := false |}.

Definition deployStack (stackName : string) : Script unit :=
  run_ (line (deploy_command stackName)) false (Some "infra") false.

Definition stacks : list string :=
  [ "SpendOptimoIam"; "SpendOptimoSageMaker"; "SpendOptimoApi";
    "SpendOptimoAgentCore"; "SpendOptimoWorkflowAgent"; "SpendOptimoUi" ].

Definition deployStacks : Script unit :=
  for_each stacks (fun s => try_catch (deployStack s) (exit 1)).

(** The outputs object: stack name to output key to value. *)
Definition Outputs := gmap string (gmap string string).

(** [JSON.parse] of a describe-stacks answer: the [OutputKey]/[OutputValue]
    pairs in order ([null] parses to none); [None] when it throws. *)
Variable parseOutputs : string -> option (list (string * string)).

Definition output_stacks : list string :=
  [ "SpendOptimoApi"; "SpendOptimoAgentCore"; "SpendOptimoWorkflowAgent"; "SpendOptimoUi" ].

(** The double quote character, for command lines that quote a query. *)
Definition dquote : string := String (Ascii.ascii_of_nat 34) EmptyString.

Definition describe_command (stackName : string) : Command :=
  {| line := ("aws cloudformation describe-stacks --stack-name " ++ stackName
              ++ " --query " ++ dquote ++ "Stacks[0].Outputs" ++ dquote
              ++ " --output json")%string;
     cwd := None; piped := true |}.

Definition set_outputs (l : list (string * string)) : gmap string string :=
  fold_left (fun m kv => <[kv.1 := kv.2]> m) l ∅.

Definition fetch_outputs (acc : Outputs) (stackName : string) : Script Outputs :=
  try_catch
    (bind (run (line (describe_command stackName)) true None false) (fun result =>
       match parseOutputs (default "" result) with
       | Some l => ret (<[stackName := set_outputs l]> acc)
       | None => fun w => (Threw, w, [])
       end))
    (ret acc).

Fixpoint fetch_all (names : list string) (acc : Outputs) : Script Outputs :=
  match names with
  | [] => ret acc
  | n :: rest => bind (fetch_outputs acc n) (fetch_all rest)
  end.

Definition getStackOutputs : Script Outputs := fetch_all output_stacks ∅.

Definition deployUI : Script unit := run_ "node deploy-ui.js" false None false.

(** A value read with [outputs.Stack?.Key]: [undefined] is [None]. *)
Definition output (o : Outputs) (stackName key : string) : option string :=
  o !! stackName ≫= fun m => m !! key.

(** JavaScript truthiness of such a value: defined and not empty. *)
Definition truthy (v : option string) : bool :=
  match v with
  | Some s => negb (String.eqb s "")
  | None => false
  end.

(** [v || fallback]. *)
Definition or_else (v : option string) (fallback : string) : string :=
  match v with
  | Some s => if String.eqb s "" then fallback else s
  | None => fallback
  end.

(** A value spliced into a template literal. *)
Definition interpolate (v : option string) : string := default "undefined" v.

(** The lines of the summary that depend on the outputs, without their
    labels' decoration. The fixed text around them is left out. *)
Inductive SummaryLine :=
| WebInterface (url : string)
| ApiGateway (url : string)
| CognitoLogin (url : string)
| AnalysisAgent (runtimeId gatewayId : string)
| WorkflowAgent (runtimeId gatewayId : string)
| UserPoolId (id : string)
| ClientId (id : string)
| ApiKey (key : string).

Definition when (v : option string) (l : string -> SummaryLine) : list SummaryLine :=
  if truthy v then [l (interpolate v)] else [].

Definition displaySummary (o : Outputs) : list SummaryLine :=
  when (output o "SpendOptimoUi" "WebUrl") WebInterface
  ++ when (output o "SpendOptimoApi" "ApiUrl") ApiGateway
  ++ when (output o "SpendOptimoAgentCore" "CognitoDomain") (fun domain =>
       let clientId := output o "SpendOptimoAgentCore" "CognitoUserPoolClientId" in
       let redirectUri := or_else (output o "SpendOptimoUi" "WebUrl") "https://localhost:5173" in
       CognitoLogin ("https://" ++ domain ++ "/login?client_id=" ++ interpolate clientId
                     ++ "&response_type=token&redirect_uri=" ++ redirectUri)%string)
  ++ when (output o "SpendOptimoAgentCore" "AgentRuntimeId") (fun id =>
       AnalysisAgent id (or_else (output o "SpendOptimoAgentCore" "GatewayId") "N/A"))
  ++ when (output o "SpendOptimoWorkflowAgent" "WorkflowAgentRuntimeId") (fun id =>
       WorkflowAgent id (or_else (output o "SpendOptimoWorkflowAgent" "WorkflowGatewayId") "N/A"))
  ++ when (output o "SpendOptimoAgentCore" "CognitoUserPoolId") UserPoolId
  ++ when (output o "SpendOptimoAgentCore" "CognitoUserPoolClientId") ClientId
  ++ when (output o "SpendOptimoApi" "ApiKey") ApiKey.

(** [main]: the seven steps in order; any exception ends the process with
    status 1. It returns the summary lines it displayed. *)
Definition main : Script (list SummaryLine) :=
  try_catch
    (bind checkPrerequisites (fun _ =>
     bind installDependencies (fun _ =>
     bind bootstrapCDK (fun _ =>
     bind deployStacks (fun _ =>
     bind deployUI (fun _ =>
     bind getStackOutputs (fun outputs =>
     ret (displaySummary outputs))))))))
    (exit 1).

(** *** How scripts compose *)

Lemma bind_returned {A B} (m : Script A) (k : A -> Script B) (w w1 : World)
      (a : A) (t1 : list Event) :
  m w = (Returned a, w1, t1) ->
  bind m k w = ((k a w1).1.1, (k a w1).1.2, t1 ++ (k a w1).2).
Proof.
  intros H. unfold bind. rewrite H. destruct (k a w1) as [[o w2] t2]. reflexivity.
Qed.

Lemma bind_stopped {A B} (m : Script A) (k : A -> Script B) (w : World) :
  (forall a, outcome_of (m w) <> Returned a) ->
  events_of (bind m k w) = events_of (m w) /\
  (outcome_of (m w) = Threw -> outcome_of (bind m k w) = Threw) /\
  (forall c, outcome_of (m w) = Exited c -> outcome_of (bind m k w) = Exited c).
Proof.
  intros H. unfold bind, outcome_of, events_of in *.
  destruct (m w) as [[[a| |c] w1] t1]; cbn in *.
  - exfalso. apply (H a). reflexivity.
  - split; [reflexivity|]. split; [reflexivity|]. intros c [=].
  - split; [reflexivity|]. split; [intros [=]|]. intros c' [= ->]. reflexivity.
Qed.

(** Every event of a script satisfies [P]. *)
Definition only {A} (P : Event -> Prop) (m : Script A) : Prop :=
  forall w, Forall P (events_of (m w)).

Lemma only_ret {A} (P : Event -> Prop) (a : A) : only P (ret a).
Proof. intros w. constructor. Qed.

Lemma only_exit {A} (P : Event -> Prop) (c : nat) : only P (@exit A c).
Proof. intros w. constructor. Qed.

Lemma only_bind {A B} (P : Event -> Prop) (m : Script A) (k : A -> Script B) :
  only P m -> (forall a, only P (k a)) -> only P (bind m k).
Proof.
  intros Hm Hk w. specialize (Hm w). unfold bind, events_of in *.
  destruct (m w) as [[[a| |c] w1] t1]; cbn in *; auto.
  specialize (Hk a w1). destruct (k a w1) as [[o w2] t2]. cbn in *.
  apply Forall_app. auto.
Qed.

Lemma only_try_catch {A} (P : Event -> Prop) (body handler : Script A) :
  only P body -> only P handler -> only P (try_catch body handler).
Proof.
  intros Hb Hh w. specialize (Hb w). unfold try_catch, events_of in *.
  destruct (body w) as [[[a| |c] w1] t1]; cbn in *; auto.
  specialize (Hh w1). destruct (handler w1) as [[o w2] t2]. cbn in *.
  apply Forall_app. auto.
Qed.

Lemma only_for_each {A} (P : Event -> Prop) (l : list A) (body : A -> Script unit) :
  (forall x, In x l -> only P (body x)) -> only P (for_each l body).
Proof.
  induction l as [|x rest IH]; intros H; cbn [for_each].
  - apply only_ret.
  - apply only_bind; [apply H; left; reflexivity|].
    intros _. apply IH. intros y Hy. apply H. right. exact Hy.
Qed.

Lemma only_run (P : Event -> Prop) (c : string) (s : bool) (d : option string) (ign : bool) :
  P (Spawned {| line := c; cwd := d; piped := s |}) -> only P (run c s d ign).
Proof.
  intros Hp w. unfold run, events_of.
  destruct (execSync _ w) as [[out|] w']; [|destruct ign]; cbn; repeat constructor; exact Hp.
Qed.

Lemma only_run_ (P : Event -> Prop) (c : string) (s : bool) (d : option string) (ign : bool) :
  P (Spawned {| line := c; cwd := d; piped := s |}) -> only P (run_ c s d ign).
Proof.
  intros Hp. apply only_bind; [apply only_run; exact Hp|]. intros _. apply only_ret.
Qed.

(** What one [run] leaves behind. *)
Lemma run__result (c : string) (s : bool) (d : option string) (ign : bool) (w : World) :
  let cmd := {| line := c; cwd := d; piped := s |} in
  run_ c s d ign w =
    (match (execSync cmd w).1 with
     | Some _ => Returned tt
     | None => if ign then Returned tt else Threw
     end, (execSync cmd w).2, [Spawned cmd]).
Proof.
  cbn. unfold run_, bind, run, ret.
  destruct (execSync _ w) as [[out|] w']; [|destruct ign]; reflexivity.
Qed.

Lemma in_events_bind {A B} (m : Script A) (k : A -> Script B) (w : World) (e : Event) :
  In e (events_of (bind m k w)) ->
  In e (events_of (m w)) \/
  exists a w1 t1, m w = (Returned a, w1, t1) /\ In e (events_of (k a w1)).
Proof.
  unfold bind, events_of. destruct (m w) as [[[a| |c] w1] t1] eqn:Hm; cbn; auto.
  destruct (k a w1) as [[o w2] t2] eqn:Hk. cbn. intros Hin.
  apply in_app_or in Hin as [Hin|Hin]; [left; exact Hin|].
  right. exists a, w1, t1. rewrite Hk. auto.
Qed.

Lemma events_bind_returned {A B} (m : Script A) (k : A -> Script B) (w w1 : World)
      (a : A) (t1 : list Event) :
  m w = (Returned a, w1, t1) ->
  events_of (bind m k w) = t1 ++ events_of (k a w1).
Proof. intros H. rewrite (bind_returned m k w w1 a t1 H). reflexivity. Qed.

Lemma try_exit_events {A} (body : Script A) (c : nat) (w : World) :
  events_of (try_catch body (exit c) w) = events_of (body w) /\
  outcome_of (try_catch body (exit c) w) <> Threw.
Proof.
  unfold try_catch, exit, events_of, outcome_of.
  destruct (body w) as [[[a| |c'] w1] t1]; cbn; split; auto using app_nil_r; discriminate.
Qed.

(** *** checkPrerequisites *)

Definition check_command (c : Check) : Command :=
  {| line := check_cmd c; cwd := None; piped := true |}.

Definition check_step (c : Check) : Script unit :=
  try_catch (run_ (check_cmd c) true None false)
            (if check_optional c then ret tt else exit 1).

Lemma check_step_result (c : Check) (w : World) :
  check_step c w =
    (match (execSync (check_command c) w).1 with
     | Some _ => Returned tt
     | None => if check_optional c then Returned tt else Exited 1
     end, (execSync (check_command c) w).2, [Spawned (check_command c)]).
Proof.
  unfold check_step, try_catch. rewrite run__result.
  fold (check_command c).
  destruct ((execSync (check_command c) w).1); [reflexivity|].
  destruct (check_optional c); reflexivity.
Qed.

Lemma check_each (l : list Check) (w : World) :
  (outcome_of (for_each l check_step w) = Returned tt \/
   outcome_of (for_each l check_step w) = Exited 1) /\
  ((forall c w', In c l -> check_optional c = false ->
                 (execSync (check_command c) w').1 <> None) ->
   outcome_of (for_each l check_step w) = Returned tt /\
   events_of (for_each l check_step w) = Spawned ∘ check_command <$> l).
Proof.
  revert w. induction l as [|c rest IH]; intros w; cbn [for_each].
  - split; [left; reflexivity|]. intros _. split; reflexivity.
  - pose proof (check_step_result c w) as Hc.
    destruct ((execSync (check_command c) w).1) as [out|] eqn:Hexec;
      [|destruct (check_optional c) eqn:Hopt].
    + rewrite (bind_returned _ _ _ _ _ _ Hc). cbn [fst snd].
      destruct (IH (execSync (check_command c) w).2) as [Hout Hall].
      split; [exact Hout|]. intros Hreq.
      destruct Hall as [Ho He]; [intros c' w' Hin; apply Hreq; right; exact Hin|].
      split; [exact Ho|]. unfold events_of in *. cbn. rewrite He. reflexivity.
    + rewrite (bind_returned _ _ _ _ _ _ Hc). cbn [fst snd].
      destruct (IH (execSync (check_command c) w).2) as [Hout Hall].
      split; [exact Hout|]. intros Hreq.
      destruct Hall as [Ho He]; [intros c' w' Hin; apply Hreq; right; exact Hin|].
      split; [exact Ho|]. unfold events_of in *. cbn. rewrite He. reflexivity.
    + split.
      * right. unfold bind, outcome_of. rewrite Hc. reflexivity.
      * intros Hreq. exfalso.
        apply (Hreq c w (or_introl eq_refl) Hopt). exact Hexec.
Qed.

(** X2. checkPrerequisites never lets an exception out: it returns or
    exits with status 1. When the four required commands (node, python,
    aws, cdk) run, it returns after spawning all five version commands,
    whatever they print and whether or not docker is there: the minimum
    versions listed in the table are not compared with anything. *)
Theorem prerequisites_only_need_commands_to_run :
  forall w : World,
    (outcome_of (checkPrerequisites w) = Returned tt \/
     outcome_of (checkPrerequisites w) = Exited 1) /\
    ((forall c w', In c checks -> check_optional c = false ->
                   (execSync (check_command c) w').1 <> None) ->
     outcome_of (checkPrerequisites w) = Returned tt /\
     events_of (checkPrerequisites w) = Spawned ∘ check_command <$> checks).
Proof.
  intros w. exact (check_each checks w).
Qed.

(** *** bootstrapCDK *)

Definition bootstrap_probe : Command :=
  {| line := "aws cloudformation describe-stacks --stack-name CDKToolkit";
     cwd := None; piped := true |}.

Definition bootstrap_command : Command :=
  {| line := "npx cdk bootstrap"; cwd := Some "infra"; piped := false |}.

Lemma bootstrapCDK_result (w : World) :
  bootstrapCDK w = (Returned tt, (execSync bootstrap_probe w).2, [Spawned bootstrap_probe]).
Proof.
  unfold bootstrapCDK, try_catch. rewrite run__result. fold bootstrap_probe.
  destruct ((execSync bootstrap_probe w).1); reflexivity.
Qed.

(** *** deployStacks *)

Definition deploy_step (s : string) : Script unit :=
  try_catch (deployStack s) (exit 1).

Lemma deploy_step_result (s : string) (w : World) :
  deploy_step s w =
    (match (execSync (deploy_command s) w).1 with
     | Some _ => Returned tt
     | None => Exited 1
     end, (execSync (deploy_command s) w).2, [Spawned (deploy_command s)]).
Proof.
  unfold deploy_step, try_catch, deployStack. rewrite run__result.
  change {| line := line (deploy_command s); cwd := Some "infra"; piped := false |}
    with (deploy_command s).
  destruct ((execSync (deploy_command s) w).1); reflexivity.
Qed.

Lemma deploy_each (l : list string) (w : World) :
  exists n,
    n <= length l /\
    events_of (for_each l deploy_step w) = Spawned ∘ deploy_command <$> take n l /\
    (outcome_of (for_each l deploy_step w) = Returned tt /\ n = length l \/
     outcome_of (for_each l deploy_step w) = Exited 1 /\ 0 < n).
Proof.
  revert w. induction l as [|s rest IH]; intros w; cbn [for_each].
  - exists 0. split; [lia|]. split; [reflexivity|]. left. split; reflexivity.
  - pose proof (deploy_step_result s w) as Hs.
    destruct ((execSync (deploy_command s) w).1) as [out|] eqn:Hexec.
    + rewrite (bind_returned _ _ _ _ _ _ Hs). cbn [fst snd].
      destruct (IH (execSync (deploy_command s) w).2) as (n & Hn & He & Ho).
      exists (S n). split; [cbn; lia|]. split.
      * unfold events_of in *. cbn. rewrite He. reflexivity.
      * destruct Ho as [[Ho ->]|[Ho Hpos]]; [left|right]; split; auto; cbn; lia.
    + exists 1. split; [cbn; lia|]. split.
      * unfold bind, events_of. rewrite Hs. cbn. rewrite take_0. reflexivity.
      * right. split; [|lia]. unfold bind, outcome_of. rewrite Hs. reflexivity.
Qed.

(** The machine after the deployments of [l], run one after the other. *)
Fixpoint deployed (l : list string) (w : World) : World :=
  match l with
  | [] => w
  | s :: rest => deployed rest (execSync (deploy_command s) w).2
  end.

(** What [execSync] answers to the deployment at position [i] of [l],
    started where the deployments before it left the machine. *)
Definition answer (l : list string) (w : World) (i : nat) : option (option string) :=
  (fun s => (execSync (deploy_command s) (deployed (take i l) w)).1) <$> l !! i.

Definition succeeded (l : list string) (w : World) (i : nat) : bool :=
  match answer l w i with
  | Some (Some _) => true
  | _ => false
  end.

Definition failed (l : list string) (w : World) (i : nat) : bool :=
  match answer l w i with
  | Some None => true
  | _ => false
  end.

Lemma answer_later (s : string) (rest : list string) (w : World) (i : nat) :
  answer (s :: rest) w (S i) = answer rest (execSync (deploy_command s) w).2 i.
Proof. reflexivity. Qed.

(** Either every deployment of [l] succeeds and all were run, or the run
    ends with the first one that fails. *)
Lemma deploy_run (l : list string) (w : World) :
  ((forall i, i < length l -> succeeded l w i = true) /\
   for_each l deploy_step w
     = (Returned tt, deployed l w, Spawned ∘ deploy_command <$> l)) \/
  (exists i,
     i < length l /\
     (forall j, j < i -> succeeded l w j = true) /\
     failed l w i = true /\
     outcome_of (for_each l deploy_step w) = Exited 1 /\
     events_of (for_each l deploy_step w) = Spawned ∘ deploy_command <$> take (S i) l).
Proof.
  revert w. induction l as [|s rest IH]; intros w; cbn [for_each].
  - left. split; [cbn; lia|reflexivity].
  - pose proof (deploy_step_result s w) as Hs.
    destruct ((execSync (deploy_command s) w).1) as [out|] eqn:Hexec.
    + rewrite (bind_returned _ _ _ _ _ _ Hs). cbn [fst snd].
      destruct (IH (execSync (deploy_command s) w).2)
        as [[Hall Hrun]|(i & Hi & Hbefore & Hfail & Ho & He)].
      * left. split.
        -- intros [|i] Hi.
           ++ unfold succeeded, answer. cbn. now rewrite Hexec.
           ++ unfold succeeded. rewrite answer_later. apply Hall. cbn in Hi. lia.
        -- rewrite Hrun. reflexivity.
      * right. exists (S i). split; [cbn; lia|]. split; [|split; [|split]].
        -- intros [|j] Hj.
           ++ unfold succeeded, answer. cbn. now rewrite Hexec.
           ++ unfold succeeded. rewrite answer_later. apply Hbefore. lia.
        -- unfold failed. rewrite answer_later. exact Hfail.
        -- exact Ho.
        -- unfold events_of in *. cbn [snd]. rewrite He. reflexivity.
    + right. exists 0. split; [cbn; lia|]. split; [intros j Hj; lia|].
      split; [unfold failed, answer; cbn; now rewrite Hexec|].
      unfold bind, outcome_of, events_of. rewrite Hs. split; reflexivity.
Qed.

(** X3. deployStacks deploys the six stacks in the listed order and halts
    at the first deployment that fails.  Either each of the six
    deployments, started where the one before left the machine, succeeds,
    and then all six were spawned and it returns; or one of them fails,
    all before it having succeeded, and then it exits with status 1 with
    that one as the last command spawned. *)
Theorem deployStacks_halts_at_first_failure :
  forall w : World,
    ((forall i, i < 6 -> succeeded stacks w i = true) /\
     deployStacks w
       = (Returned tt, deployed stacks w, Spawned ∘ deploy_command <$> stacks)) \/
    (exists i,
       i < 6 /\
       (forall j, j < i -> succeeded stacks w j = true) /\
       failed stacks w i = true /\
       outcome_of (deployStacks w) = Exited 1 /\
       events_of (deployStacks w) = Spawned ∘ deploy_command <$> take (S i) stacks).
Proof.
  intros w. exact (deploy_run stacks w).
Qed.

(** *** getStackOutputs *)

Lemma fetch_outputs_result (acc : Outputs) (n : string) (w : World) :
  exists outs,
    fetch_outputs acc n w
      = (Returned outs, (execSync (describe_command n) w).2, [Spawned (describe_command n)]) /\
    (outs = acc \/ exists l, outs = <[n := set_outputs l]> acc).
Proof.
  unfold fetch_outputs, try_catch, bind, run, ret.
  change {| line := line (describe_command n); cwd := None; piped := true |}
    with (describe_command n).
  destruct (execSync (describe_command n) w) as [[out|] w'] eqn:He; cbn.
  - destruct (parseOutputs out) as [l|]; cbn; eexists; split; eauto.
  - eexists; split; eauto.
Qed.

Lemma fetch_all_result (names : list string) (acc : Outputs) (w : World) :
  exists outs,
    outcome_of (fetch_all names acc w) = Returned outs /\
    events_of (fetch_all names acc w) = Spawned ∘ describe_command <$> names /\
    (forall k, is_Some (outs !! k) -> is_Some (acc !! k) \/ In k names).
Proof.
  revert acc w. induction names as [|n rest IH]; intros acc w; cbn [fetch_all].
  - exists acc. repeat split; auto.
  - destruct (fetch_outputs_result acc n w) as (o1 & Hf & Ho1).
    rewrite (bind_returned _ _ _ _ _ _ Hf).
    destruct (IH o1 (execSync (describe_command n) w).2) as (outs & Hout & Hev & Hdom).
    exists outs. unfold outcome_of, events_of in *. cbn. split; [exact Hout|].
    split; [rewrite Hev; reflexivity|].
    intros k Hk. destruct (Hdom k Hk) as [Hin|Hin]; [|right; right; exact Hin].
    destruct Ho1 as [->|[l ->]]; [left; exact Hin|].
    destruct (decide (n = k)) as [->|Hne]; [right; left; reflexivity|].
    unfold Outputs in *. rewrite lookup_insert_ne in Hin by exact Hne. left. exact Hin.
Qed.

(** X4. getStackOutputs always returns: a stack whose outputs cannot be
    fetched or parsed is skipped. It asks for each of the four stacks
    exactly once, in order, and the object it returns has no entry besides
    those four stacks (the IAM and SageMaker stacks are never queried). *)
Theorem getStackOutputs_never_fails :
  forall w : World,
    exists outs : Outputs,
      outcome_of (getStackOutputs w) = Returned outs /\
      events_of (getStackOutputs w) = Spawned ∘ describe_command <$> output_stacks /\
      (forall k, is_Some (outs !! k) -> In k output_stacks) /\
      outs !! "SpendOptimoIam" = None /\
      outs !! "SpendOptimoSageMaker" = None.
Proof.
  intros w. destruct (fetch_all_result output_stacks ∅ w) as (outs & Ho & He & Hdom).
  assert (Hkeys : forall k, is_Some (outs !! k) -> In k output_stacks).
  { intros k Hk. destruct (Hdom k Hk) as [Hempty|Hin]; [|exact Hin].
    unfold Outputs in *. rewrite lookup_empty in Hempty. destruct Hempty as [x Hx]. discriminate. }
  exists outs. repeat split; auto.
  - destruct (outs !! "SpendOptimoIam") eqn:Hl; [|reflexivity].
    exfalso. assert (Hin := Hkeys "SpendOptimoIam" ltac:(rewrite Hl; eauto)).
    cbn in Hin. intuition discriminate.
  - destruct (outs !! "SpendOptimoSageMaker") eqn:Hl; [|reflexivity].
    exfalso. assert (Hin := Hkeys "SpendOptimoSageMaker" ltac:(rewrite Hl; eauto)).
    cbn in Hin. intuition discriminate.
Qed.

(** *** main *)

Definition ui_command : Command :=
  {| line := "node deploy-ui.js"; cwd := None; piped := false |}.

Definition install_infra : Command :=
  {| line := "npm install"; cwd := Some "infra"; piped := false |}.

Definition install_webapp : Command :=
  {| line := "npm install"; cwd := Some "webapp"; piped := false |}.

Lemma only_checkPrerequisites (P : Event -> Prop) :
  Forall (fun c => P (Spawned (check_command c))) checks -> only P checkPrerequisites.
Proof.
  intros H. apply only_for_each. intros c Hin.
  rewrite List.Forall_forall in H. specialize (H c Hin).
  apply only_try_catch; [apply only_run_; exact H|].
  destruct (check_optional c); [apply only_ret|apply only_exit].
Qed.

Lemma only_installDependencies (P : Event -> Prop) :
  P (Spawned install_infra) -> P (Probed "api/requirements.txt") ->
  P (Spawned install_webapp) -> only P installDependencies.
Proof.
  intros H1 H2 H3. unfold installDependencies.
  apply only_bind; [apply only_run_; exact H1|]. intros _.
  apply only_bind; [intros w; cbn; repeat constructor; exact H2|]. intros present.
  apply only_bind; [destruct present; [apply only_ret|apply only_exit]|]. intros _.
  apply only_run_. exact H3.
Qed.

Lemma only_bootstrapCDK (P : Event -> Prop) :
  P (Spawned bootstrap_probe) -> only P bootstrapCDK.
Proof.
  intros H w. rewrite bootstrapCDK_result. cbn. repeat constructor. exact H.
Qed.

Lemma only_deployStacks (P : Event -> Prop) :
  Forall (fun s => P (Spawned (deploy_command s))) stacks -> only P deployStacks.
Proof.
  intros H. apply only_for_each. intros s0 Hin.
  rewrite List.Forall_forall in H. specialize (H s0 Hin).
  apply only_try_catch; [|apply only_exit].
  apply only_run_. exact H.
Qed.

Lemma only_getStackOutputs (P : Event -> Prop) :
  Forall (fun s => P (Spawned (describe_command s))) output_stacks -> only P getStackOutputs.
Proof.
  intros H w. destruct (fetch_all_result output_stacks ∅ w) as (outs & _ & He & _).
  unfold getStackOutputs. rewrite He. clear He.
  induction H; cbn; constructor; auto.
Qed.

(** Everything [main] may do to the machine. *)
Definition main_universe : list Event :=
  (Spawned ∘ check_command <$> checks)
  ++ [Spawned install_infra; Probed "api/requirements.txt"; Spawned install_webapp;
      Spawned bootstrap_probe]
  ++ (Spawned ∘ deploy_command <$> stacks)
  ++ [Spawned ui_command]
  ++ (Spawned ∘ describe_command <$> output_stacks).

Ltac in_universe := cbn; repeat first [left; reflexivity | right].

Ltac all_in_universe :=
  cbv [checks stacks output_stacks];
  repeat (apply List.Forall_cons; [in_universe|]); apply List.Forall_nil.

Lemma main_stays_in_universe : only (fun e => In e main_universe) main.
Proof.
  unfold main. apply only_try_catch; [|apply only_exit].
  apply only_bind; [apply only_checkPrerequisites; all_in_universe|].
  intros _.
  apply only_bind; [apply only_installDependencies; in_universe|]. intros _.
  apply only_bind; [apply only_bootstrapCDK; in_universe|]. intros _.
  apply only_bind; [apply only_deployStacks; all_in_universe|].
  intros _.
  apply only_bind; [apply only_run_; in_universe|]. intros _.
  apply only_bind; [apply only_getStackOutputs; all_in_universe|].
  intros o. apply only_ret.
Qed.

(** X1. bootstrapCDK probes for the CDKToolkit stack with errors ignored,
    so whether or not the probe fails it returns without ever spawning
    [npx cdk bootstrap]; no run of main spawns it either. *)
Theorem bootstrap_command_is_never_spawned :
  forall w : World,
    bootstrapCDK w
      = (Returned tt, (execSync bootstrap_probe w).2, [Spawned bootstrap_probe]) /\
    ~ In (Spawned bootstrap_command) (events_of (main w)).
Proof.
  intros w. split; [apply bootstrapCDK_result|].
  intros Hin. pose proof (main_stays_in_universe w) as Hall.
  rewrite List.Forall_forall in Hall. specialize (Hall _ Hin).
  vm_compute in Hall.
  repeat (destruct Hall as [Hall|Hall]; [discriminate Hall|]). exact Hall.
Qed.

Definition all_deployed : list Event := Spawned ∘ deploy_command <$> stacks.

Ltac not_the_ui :=
  cbv [checks stacks output_stacks];
  repeat (apply List.Forall_cons; [intros [=]|]); apply List.Forall_nil.


Lemma bind_assoc {A B C} (m : Script A) (k : A -> Script B) (h : B -> Script C)
      (w : World) :
  bind (bind m k) h w = bind m (fun a => bind (k a) h) w.
Proof.
  unfold bind. destruct (m w) as [[[a| |c] w1] t1]; [|reflexivity|reflexivity].
  destruct (k a w1) as [[[b| |c] w2] t2]; [|reflexivity|reflexivity].
  destruct (h b w2) as [[o w3] t3]. now rewrite app_assoc.
Qed.

Lemma bind_ext {A B} (m : Script A) (k k' : A -> Script B) (w : World) :
  (forall a w1, k a w1 = k' a w1) -> bind m k w = bind m k' w.
Proof.
  intros H. unfold bind. destruct (m w) as [[[a| |c] w1] t1]; [|reflexivity|reflexivity].
  now rewrite H.
Qed.

(** The first three steps of [main]: what comes before any deployment. *)
Definition preparation : Script unit :=
  bind checkPrerequisites (fun _ =>
  bind installDependencies (fun _ => bootstrapCDK)).

Lemma preparation_then {B} (k : Script B) (w : World) :
  bind checkPrerequisites (fun _ =>
  bind installDependencies (fun _ =>
  bind bootstrapCDK (fun _ => k))) w
  = bind preparation (fun _ => k) w.
Proof.
  unfold preparation. rewrite bind_assoc. apply bind_ext. intros _ w1.
  now rewrite bind_assoc.
Qed.

Lemma preparation_spares_the_ui : only (fun e => e <> Spawned ui_command) preparation.
Proof.
  apply only_bind; [apply only_checkPrerequisites; not_the_ui|]. intros _.
  apply only_bind; [apply only_installDependencies; intros [=]|]. intros _.
  apply only_bootstrapCDK. intros [=].
Qed.

(** X5. main deploys the web interface only after all six stacks were
    deployed: in any run that spawns [node deploy-ui.js], the first three
    steps returned, each of the six deployments that followed succeeded
    and deployStacks returned, and the six deploy commands, in the listed
    order, come right before the UI deployment. And main lets no exception
    out: it returns or exits. *)
Theorem ui_is_deployed_after_all_stacks :
  forall w : World,
    outcome_of (main w) <> Threw /\
    (In (Spawned ui_command) (events_of (main w)) ->
     exists w0 pre post,
       preparation w = (Returned tt, w0, pre) /\
       (forall i, i < 6 -> succeeded stacks w0 i = true) /\
       deployStacks w0 = (Returned tt, deployed stacks w0, all_deployed) /\
       events_of (main w) = pre ++ all_deployed ++ Spawned ui_command :: post).
Proof.
  intros w. unfold main.
  match goal with |- context [try_catch ?b _] => destruct (try_exit_events b 1 w) as [He Ho] end.
  split; [exact Ho|]. rewrite He. clear He Ho.
  rewrite preparation_then.
  pose proof (preparation_spares_the_ui w) as Hprep.
  rewrite List.Forall_forall in Hprep.
  intros Hin. apply in_events_bind in Hin as [Hin|(a & w0 & pre & Hr & Hin)];
    [exfalso; apply (Hprep _ Hin); reflexivity|].
  destruct a. exists w0, pre.
  rewrite (events_bind_returned _ _ w w0 tt pre Hr).
  destruct (deploy_run stacks w0) as [[Hall Hrun]|(i & _ & _ & _ & Hout & _)].
  - change (for_each stacks deploy_step) with deployStacks in Hrun.
    match goal with
    | |- context [bind deployUI ?k] =>
        exists (match (execSync ui_command (deployed stacks w0)).1 with
                | Some _ => events_of (k tt (execSync ui_command (deployed stacks w0)).2)
                | None => []
                end)
    end.
    split; [exact Hr|]. split; [exact Hall|]. split; [exact Hrun|].
    f_equal. rewrite (events_bind_returned _ _ w0 _ tt _ Hrun).
    unfold all_deployed. f_equal.
    unfold bind at 1, deployUI. rewrite run__result. fold ui_command.
    destruct ((execSync ui_command (deployed stacks w0)).1); [|reflexivity].
    match goal with |- context [bind getStackOutputs ?k] =>
      destruct (bind getStackOutputs k (execSync ui_command (deployed stacks w0)).2)
        as [[o2 w2] t2] end.
    reflexivity.
  - exfalso. change (for_each stacks deploy_step) with deployStacks in Hout.
    apply in_events_bind in Hin as [Hin|(a & w1 & t1 & Hr' & _)].
    + pose proof (only_deployStacks (fun e => e <> Spawned ui_command)
                    ltac:(not_the_ui) w0) as Hnot.
      rewrite List.Forall_forall in Hnot. apply (Hnot _ Hin). reflexivity.
    + unfold outcome_of in Hout. rewrite Hr' in Hout. discriminate.
Qed.

(** *** deploy-ui.js *)

(** [String.prototype.trim], and the directory the script lies in. *)
Variable trim : string -> string.
Variable scriptDir : string.

Definition bucketName : string :=
  "spendoptimoui-spendoptimowebbucketaa1edeb5-ffllzwl99lxc".

Definition domain : string := "d293f08cklhjup.cloudfront.net".

Definition build_command : Command :=
  {| line := "npm run build"; cwd := Some (scriptDir ++ "/webapp")%string; piped := false |}.

Definition lookup_command : Command :=
  {| line := ("aws cloudfront list-distributions --query " ++ dquote
              ++ "DistributionList.Items[?DomainName=='" ++ domain ++ "'].Id" ++ dquote
              ++ " --output text")%string;
     cwd := None; piped := true |}.

Definition sync_command : Command :=
  {| line := ("aws s3 sync webapp/dist s3://" ++ bucketName
              ++ " --region us-east-1 --delete --exclude index.html --cache-control "
              ++ dquote ++ "public,max-age=31536000,immutable" ++ dquote)%string;
     cwd := None; piped := false |}.

Definition copy_command : Command :=
  {| line := ("aws s3 cp webapp/dist/index.html s3://" ++ bucketName
              ++ "/index.html --region us-east-1 --cache-control "
              ++ dquote ++ "no-cache" ++ dquote)%string;
     cwd := None; piped := false |}.

Definition invalidate_command (distId : string) : Command :=
  {| line := ("aws cloudfront create-invalidation --distribution-id " ++ distId
              ++ " --paths " ++ dquote ++ "/*" ++ dquote)%string;
     cwd := None; piped := false |}.

(** A bare [execSync]: the output, or the exception of a failing command. *)
Definition exec (c : Command) : Script string :=
  fun w =>
    match execSync c w with
    | (Some out, w') => (Returned out, w', [Spawned c])
    | (None, w') => (Threw, w', [Spawned c])
    end.

Definition throw {A} : Script A := fun w => (Threw, w, []).

(** The script body of deploy-ui.js. *)
Definition deploy_ui_script : Script unit :=
  try_catch
    (bind (exec build_command) (fun _ =>
     bind (exec lookup_command) (fun out =>
       let distId := trim out in
       if String.eqb distId "" then throw
       else
         bind (exec sync_command) (fun _ =>
         bind (exec copy_command) (fun _ =>
         bind (exec (invalidate_command distId)) (fun _ => ret tt))))))
    (exit 1).

Definition ui_steps (distId : string) : list Event :=
  [ Spawned build_command; Spawned lookup_command; Spawned sync_command;
    Spawned copy_command; Spawned (invalidate_command distId) ].

Lemma exec_result (c : Command) (w : World) :
  exec c w =
    (match (execSync c w).1 with
     | Some out => Returned out
     | None => Threw
     end, (execSync c w).2, [Spawned c]).
Proof. unfold exec. destruct (execSync c w) as [[out|] w']; reflexivity. Qed.

(** X6. deploy-ui.js uploads nothing unless the build succeeded and the
    distribution lookup printed something other than blanks: its commands
    are a prefix of build, lookup, sync, copy, invalidate; anything after
    the lookup is spawned only with a non-empty distribution id, which is
    the trimmed lookup output and the id the invalidation names. It ends by
    returning after all five, or by exiting with status 1. *)
Theorem ui_upload_needs_build_and_distribution :
  forall w : World,
    exists (n : nat) (distId : string),
      events_of (deploy_ui_script w) = take n (ui_steps distId) /\
      (2 < n ->
       distId <> "" /\
       exists built w1 listed,
         execSync build_command w = (Some built, w1) /\
         (execSync lookup_command w1).1 = Some listed /\ distId = trim listed) /\
      (outcome_of (deploy_ui_script w) = Returned tt /\ n = 5 \/
       outcome_of (deploy_ui_script w) = Exited 1 /\ 0 < n <= 5).
Proof.
  intros w. unfold deploy_ui_script, try_catch, bind, throw, exit, ret.
  rewrite (exec_result build_command w).
  destruct (execSync build_command w) as [[o1|] w1] eqn:Hb; cbn [fst snd].
  2:{ exists 1, "". cbn. split; [reflexivity|]. split; [lia|]. right. split; [reflexivity|lia]. }
  rewrite (exec_result lookup_command w1).
  destruct (execSync lookup_command w1) as [[o2|] w2] eqn:Hl; cbn [fst snd].
  2:{ exists 2, "". cbn. split; [reflexivity|]. split; [lia|]. right. split; [reflexivity|lia]. }
  destruct (String.eqb_spec (trim o2) "") as [He|Hne].
  { exists 2, "". cbn. split; [reflexivity|]. split; [lia|]. right. split; [reflexivity|lia]. }
  assert (Hid : trim o2 <> "" /\
                exists built w1' listed,
                  (Some o1, w1) = (Some built, w1') /\
                  (execSync lookup_command w1').1 = Some listed /\ trim o2 = trim listed).
  { split; [exact Hne|]. exists o1, w1, o2. rewrite Hl. auto. }
  rewrite (exec_result sync_command w2).
  destruct (execSync sync_command w2) as [[o3|] w3]; cbn [fst snd].
  2:{ exists 3, (trim o2). cbn. split; [reflexivity|]. split; [intros _; exact Hid|].
      right. split; [reflexivity|lia]. }
  rewrite (exec_result copy_command w3).
  destruct (execSync copy_command w3) as [[o4|] w4]; cbn [fst snd].
  2:{ exists 4, (trim o2). cbn. split; [reflexivity|]. split; [intros _; exact Hid|].
      right. split; [reflexivity|lia]. }
  rewrite (exec_result (invalidate_command (trim o2)) w4).
  destruct (execSync (invalidate_command (trim o2)) w4) as [[o5|] w5]; cbn [fst snd].
  - exists 5, (trim o2). cbn. split; [reflexivity|]. split; [intros _; exact Hid|].
    left. split; reflexivity.
  - exists 5, (trim o2). cbn. split; [reflexivity|]. split; [intros _; exact Hid|].
    right. split; [reflexivity|lia].
Qed.

(** *** One sequence for every run *)

(** A script keeps to a plan when a run that returns has done all of it,
    and a run that is cut short has done its first [n] steps, for some [n]
    up to [bound]. *)
Definition keeps_to {A} (plan : list Event) (bound : nat) (m : Script A) : Prop :=
  forall w,
    (exists a, outcome_of (m w) = Returned a /\ events_of (m w) = plan) \/
    ((outcome_of (m w) = Threw \/ outcome_of (m w) = Exited 1) /\
     exists n, n <= bound /\ events_of (m w) = take n plan).

Lemma keeps_ret {A} (a : A) : keeps_to [] 0 (ret a).
Proof. intros w. left. exists a. split; reflexivity. Qed.

Lemma keeps_exit {A} : keeps_to [] 0 (@exit A 1).
Proof. intros w. right. split; [right; reflexivity|]. exists 0. split; [lia|reflexivity]. Qed.

Lemma keeps_run_ (c : string) (s : bool) (d : option string) (ign : bool) :
  keeps_to [Spawned {| line := c; cwd := d; piped := s |}] 1 (run_ c s d ign).
Proof.
  intros w. rewrite run__result. cbn zeta. unfold outcome_of, events_of. cbn [fst snd].
  destruct (execSync _ w).1 as [out|]; [|destruct ign].
  - left. exists tt. split; reflexivity.
  - left. exists tt. split; reflexivity.
  - right. split; [left; reflexivity|]. exists 1. split; [lia|reflexivity].
Qed.

Lemma keeps_bind {A B} (p1 p2 : list Event) (k1 k2 : nat)
      (m : Script A) (k : A -> Script B) :
  keeps_to p1 k1 m -> k1 <= length p1 -> (forall a, keeps_to p2 k2 (k a)) ->
  keeps_to (p1 ++ p2) (length p1 + k2) (bind m k).
Proof.
  intros Hm Hk1 Hk w. destruct (Hm w) as [(a & Ho & He)|(Ho & n & Hn & He)].
  - unfold outcome_of, events_of in Ho, He.
    destruct (m w) as [[o w1] t1] eqn:Hmw. cbn [fst snd] in Ho, He. subst o t1.
    rewrite (bind_returned m k w w1 a p1 Hmw). unfold outcome_of, events_of.
    cbn [fst snd].
    destruct (Hk a w1) as [(b & Ho2 & He2)|(Ho2 & n2 & Hn2 & He2)];
      unfold outcome_of, events_of in Ho2, He2.
    + left. exists b. split; [exact Ho2|]. now rewrite He2.
    + right. split; [exact Ho2|]. exists (length p1 + n2). split; [lia|].
      rewrite He2. now rewrite take_app_add.
  - destruct (bind_stopped m k w) as (He' & Ht & Hx).
    { intros a Ha. destruct Ho as [Ho|Ho]; rewrite Ho in Ha; discriminate. }
    right. split.
    + destruct Ho as [Ho|Ho]; [left; apply Ht, Ho|right; apply Hx, Ho].
    + exists n. split; [lia|]. rewrite He', He. symmetry. apply take_app_le. lia.
Qed.

Lemma keeps_bind_total {A B} (p1 p2 : list Event) (k1 : nat)
      (m : Script A) (k : A -> Script B) :
  keeps_to p1 k1 m -> k1 <= length p1 ->
  (forall a w, exists b, outcome_of (k a w) = Returned b /\ events_of (k a w) = p2) ->
  keeps_to (p1 ++ p2) k1 (bind m k).
Proof.
  intros Hm Hk1 Hk w. destruct (Hm w) as [(a & Ho & He)|(Ho & n & Hn & He)].
  - unfold outcome_of, events_of in Ho, He.
    destruct (m w) as [[o w1] t1] eqn:Hmw. cbn [fst snd] in Ho, He. subst o t1.
    rewrite (bind_returned m k w w1 a p1 Hmw). unfold outcome_of, events_of.
    cbn [fst snd]. destruct (Hk a w1) as (b & Ho2 & He2).
    unfold outcome_of, events_of in Ho2, He2.
    left. exists b. split; [exact Ho2|]. now rewrite He2.
  - destruct (bind_stopped m k w) as (He' & Ht & Hx).
    { intros a Ha. destruct Ho as [Ho|Ho]; rewrite Ho in Ha; discriminate. }
    right. split.
    + destruct Ho as [Ho|Ho]; [left; apply Ht, Ho|right; apply Hx, Ho].
    + exists n. split; [lia|]. rewrite He', He. symmetry. apply take_app_le. lia.
Qed.

Lemma keeps_try_exit {A} (plan : list Event) (bound : nat) (body : Script A) :
  keeps_to plan bound body ->
  keeps_to plan bound (try_catch body (exit 1)) /\
  forall w, outcome_of (try_catch body (exit 1) w) <> Threw.
Proof.
  intros Hb. split; [|intros w; apply try_exit_events].
  intros w. destruct (try_exit_events body 1 w) as [He Hnt]. rewrite He.
  destruct (Hb w) as [(a & Ho & Hev)|(Ho & n & Hn & Hev)].
  - left. exists a. split; [|exact Hev].
    unfold try_catch, outcome_of in *. destruct (body w) as [[[a'| |c] w1] t1];
      cbn in *; congruence.
  - right. split; [|exists n; auto]. right.
    unfold try_catch, outcome_of in *. destruct (body w) as [[[a'| |c] w1] t1];
      cbn in *; destruct Ho as [Ho|Ho]; congruence.
Qed.

Lemma keeps_for_each {A} (f : A -> Event) (l : list A) (body : A -> Script unit) :
  (forall x, keeps_to [f x] 1 (body x)) ->
  keeps_to (f <$> l) (length l) (for_each l body).
Proof.
  intros Hb. induction l as [|x rest IH]; cbn [for_each].
  - apply keeps_ret.
  - refine (keeps_bind [f x] (fmap (M:=list) f rest) 1 (length rest) _ _ (Hb x) _ _);
      [cbn; lia|]. intros _. exact IH.
Qed.

Lemma keeps_checkPrerequisites :
  keeps_to (Spawned ∘ check_command <$> checks) 5 checkPrerequisites.
Proof.
  apply (keeps_for_each (Spawned ∘ check_command) checks). intros c w.
  change (try_catch (run_ (check_cmd c) true None false)
            (if check_optional c then ret tt else exit 1)) with (check_step c).
  rewrite check_step_result. unfold outcome_of, events_of. cbn [fst snd].
  destruct (execSync (check_command c) w).1 as [out|]; [|destruct (check_optional c)].
  - left. exists tt. split; reflexivity.
  - left. exists tt. split; reflexivity.
  - right. split; [right; reflexivity|]. exists 1. split; [lia|reflexivity].
Qed.

Lemma keeps_installDependencies :
  keeps_to [Spawned install_infra; Probed "api/requirements.txt"; Spawned install_webapp]
           3 installDependencies.
Proof.
  unfold installDependencies.
  refine (keeps_bind [Spawned install_infra]
            [Probed "api/requirements.txt"; Spawned install_webapp] 1 2 _ _
            (keeps_run_ _ _ _ _) _ _); [cbn; lia|].
  intros _.
  refine (keeps_bind [Probed "api/requirements.txt"] [Spawned install_webapp] 0 1
            _ _ _ _ _);
    [intros w; left; eexists; split; reflexivity|cbn; lia|].
  intros present.
  refine (keeps_bind [] [Spawned install_webapp] 0 1 _ _ _ _ _);
    [|cbn; lia|intros _; apply keeps_run_].
  destruct present; [apply keeps_ret|apply keeps_exit].
Qed.

Lemma keeps_deployStacks : keeps_to all_deployed 6 deployStacks.
Proof.
  apply (keeps_for_each (Spawned ∘ deploy_command) stacks). intros s.
  apply keeps_try_exit, keeps_run_.
Qed.

(** X23. Every run of main is an initial part of one fixed sequence of
    twenty steps (five version checks, install, probe for
    api/requirements.txt, install, bootstrap probe, six deployments, the UI
    deployment, four output queries): nothing runs out of order, nothing is
    repeated and nothing is skipped. A run returns only after all twenty;
    any other run exits with status 1 within the first sixteen. *)
Theorem main_keeps_to_one_sequence :
  forall w : World,
    exists n,
      events_of (main w) = take n main_universe /\
      ((exists summary, outcome_of (main w) = Returned summary) /\ n = 20 \/
       outcome_of (main w) = Exited 1 /\ n <= 16).
Proof.
  intros w.
  assert (Hsteps : keeps_to
            ((Spawned ∘ check_command <$> checks)
             ++ [Spawned install_infra; Probed "api/requirements.txt";
                 Spawned install_webapp]
             ++ [Spawned bootstrap_probe] ++ all_deployed ++ [Spawned ui_command]
             ++ (Spawned ∘ describe_command <$> output_stacks))
            (5 + (3 + (1 + (6 + 1))))
            (bind checkPrerequisites (fun _ =>
             bind installDependencies (fun _ =>
             bind bootstrapCDK (fun _ =>
             bind deployStacks (fun _ =>
             bind deployUI (fun _ =>
             bind getStackOutputs (fun outputs =>
             ret (displaySummary outputs))))))))).
  { refine (keeps_bind _ _ 5 _ _ _ keeps_checkPrerequisites _ _); [cbn; lia|].
    intros _.
    refine (keeps_bind _ _ 3 _ _ _ keeps_installDependencies _ _); [cbn; lia|].
    intros _.
    refine (keeps_bind [Spawned bootstrap_probe] _ 0 _ _ _ _ _ _); [|cbn; lia|].
    { intros w'. rewrite bootstrapCDK_result. left. exists tt. split; reflexivity. }
    intros _.
    refine (keeps_bind _ _ 6 _ _ _ keeps_deployStacks _ _); [cbn; lia|].
    intros _.
    refine (keeps_bind_total [Spawned ui_command] _ 1 _ _ (keeps_run_ _ _ _ _) _ _);
      [cbn; lia|].
    intros _ w'.
    destruct (fetch_all_result output_stacks ∅ w') as (outs & Ho & He & _).
    unfold outcome_of, events_of in Ho, He.
    destruct (getStackOutputs w') as [[o w2] t] eqn:Hget.
    change (fetch_all output_stacks ∅ w') with (getStackOutputs w') in Ho, He.
    rewrite Hget in Ho, He. cbn [fst snd] in Ho, He. subst o t.
    exists (displaySummary outs).
    rewrite (bind_returned getStackOutputs _ w' w2 outs _ Hget).
    unfold outcome_of, events_of, ret. cbn [fst snd]. split; [reflexivity|].
    apply app_nil_r. }
  destruct (keeps_try_exit _ _ _ Hsteps) as [Hmain Hnt].
  change (try_catch _ (exit 1)) with main in Hmain, Hnt.
  destruct (Hmain w) as [(summary & Ho & He)|([Ho|Ho] & n & Hn & He)].
  - exists 20. split; [rewrite He; reflexivity|]. left. eauto.
  - exfalso. apply (Hnt w), Ho.
  - exists n. split; [exact He|]. right. split; [exact Ho|].
    cbn in Hn. lia.
Qed.

End Scripts.

End Node.

(* ===================================================================== *)
(** ** The CDK app (bin/spendoptimo.ts) against the deployment script     *)
(* ===================================================================== *)

Module App.
Import Node.

(** The [addDependency] calls of the app: a stack and one it depends on. *)
Definition dependencies : list (string * string) :=
  [ ("SpendOptimoAgentCore", "SpendOptimoApi");
    ("SpendOptimoAgentCore", "SpendOptimoSageMaker");
    ("SpendOptimoWorkflowAgent", "SpendOptimoAgentCore");
    ("SpendOptimoUi", "SpendOptimoApi");
    ("SpendOptimoUi", "SpendOptimoAgentCore") ].

(** The ids of the outputs UiHostingStack declares. *)
Definition ui_output_keys : list string := [ "CdnUrl"; "BucketName" ].

Definition declared (keys : list string) (l : list (string * string)) : bool :=
  forallb (fun kv => existsb (String.eqb kv.1) keys) l.

Lemma set_outputs_lookup (l : list (string * string)) (acc : gmap string string)
      (k v : string) :
  fold_left (fun m kv => <[kv.1 := kv.2]> m) l acc !! k = Some v ->
  In k (fst <$> l) \/ acc !! k = Some v.
Proof.
  revert acc. induction l as [|[k' v'] rest IH]; intros acc H; cbn in *.
  - right. exact H.
  - destruct (IH _ H) as [Hin|Hacc]; [left; right; exact Hin|].
    destruct (decide (k' = k)) as [->|Hne]; [left; left; reflexivity|].
    rewrite lookup_insert_ne in Hacc by exact Hne. right. exact Hacc.
Qed.

Lemma declared_keys (keys : list string) (l : list (string * string)) (k : string) :
  declared keys l = true -> In k (fst <$> l) -> In k keys.
Proof.
  unfold declared. rewrite forallb_forall. intros H Hin.
  apply in_map_iff in Hin as ([k' v'] & <- & Hkv).
  specialize (H _ Hkv). apply existsb_exists in H as (x & Hx & Heq).
  apply String.eqb_eq in Heq. cbn in Heq. subst. exact Hx.
Qed.

Lemma no_web_url (o : Outputs) (l : list (string * string)) :
  o !! "SpendOptimoUi" = None \/
  (o !! "SpendOptimoUi" = Some (set_outputs l) /\ declared ui_output_keys l = true) ->
  output o "SpendOptimoUi" "WebUrl" = None.
Proof.
  unfold output. intros [->|[-> Hd]]; [reflexivity|]. cbn.
  destruct (set_outputs l !! "WebUrl") as [v|] eqn:Hv; [|reflexivity].
  exfalso. apply set_outputs_lookup in Hv as [Hin|Hempty].
  - pose proof (declared_keys _ _ _ Hd Hin) as Hk. cbn in Hk.
    intuition discriminate.
  - rewrite lookup_empty in Hempty. discriminate.
Qed.

Definition login_url (domain client : string) : string :=
  ("https://" ++ domain ++ "/login?client_id=" ++ client
   ++ "&response_type=token&redirect_uri=https://localhost:5173")%string.

(** X7. The summary looks for the web address under the output key WebUrl,
    but UiHostingStack declares CdnUrl and BucketName: with the UI stack's
    outputs as declared (or not retrieved), the summary never shows a web
    interface line, and the Cognito login link it prints always redirects
    to https://localhost:5173. *)
Theorem summary_never_finds_the_web_url :
  forall (o : Outputs) (l : list (string * string)),
    o !! "SpendOptimoUi" = None \/
    (o !! "SpendOptimoUi" = Some (set_outputs l) /\ declared ui_output_keys l = true) ->
    (forall u, ~ In (WebInterface u) (displaySummary o)) /\
    (forall u, In (CognitoLogin u) (displaySummary o) ->
       exists domain client, u = login_url domain client).
Proof.
  intros o l H. pose proof (no_web_url o l H) as Hweb.
  unfold displaySummary. rewrite Hweb. cbn [when truthy or_else app].
  unfold when. split.
  - intros u Hin.
    repeat (apply in_app_or in Hin as [Hin|Hin];
            [match type of Hin with
             | In _ (if ?c then _ else _) => destruct c
             end; cbn in Hin; intuition discriminate|]).
    match type of Hin with
    | In _ (if ?c then _ else _) => destruct c
    end; cbn in Hin; intuition discriminate.
  - intros u Hin.
    apply in_app_or in Hin as [Hin|Hin];
      [match type of Hin with
       | In _ (if ?c then _ else _) => destruct c
       end; cbn in Hin; intuition discriminate|].
    apply in_app_or in Hin as [Hin|Hin].
    { match type of Hin with
      | In _ (if ?c then _ else _) => destruct c
      end; cbn in Hin; [|contradiction].
      destruct Hin as [[= <-]|[]]. eexists _, _. reflexivity. }
    repeat (apply in_app_or in Hin as [Hin|Hin];
            [match type of Hin with
             | In _ (if ?c then _ else _) => destruct c
             end; cbn in Hin; intuition discriminate|]).
    match type of Hin with
    | In _ (if ?c then _ else _) => destruct c
    end; cbn in Hin; intuition discriminate.
Qed.

Section Order.

Variable World : Type.
Variable execSync : Command -> World -> option string * World.

(** X8. deployStacks follows the app's dependencies: whenever it spawns
    the deployment of a stack, the deployment of every stack that one was
    declared to depend on was spawned earlier in the same run. *)
Theorem deployment_follows_dependencies :
  forall (w : World) (a b : string) (i : nat),
    In (a, b) dependencies ->
    events_of World (deployStacks World execSync w) !! i
      = Some (Spawned (deploy_command a)) ->
    exists j,
      j < i /\
      events_of World (deployStacks World execSync w) !! j
        = Some (Spawned (deploy_command b)).
Proof.
  intros w a b i Hdep Hi.
  destruct (deploy_each World execSync stacks w) as (n & Hn & Hev & _).
  change (for_each World stacks (deploy_step World execSync))
    with (deployStacks World execSync) in Hev.
  rewrite Hev in Hi |- *. clear Hev.
  cbn in Hdep, Hn.
  repeat (destruct Hdep as [[= <- <-]|Hdep]); try contradiction;
    destruct n as [|[|[|[|[|[|[|n]]]]]]]; try lia;
    destruct i as [|[|[|[|[|[|i]]]]]]; cbn in Hi |- *; try discriminate Hi;
    first [ exists 0; split; [lia|reflexivity]
          | exists 1; split; [lia|reflexivity]
          | exists 2; split; [lia|reflexivity]
          | exists 3; split; [lia|reflexivity]
          | exists 4; split; [lia|reflexivity] ].
Qed.

End Order.

End App.

(* ===================================================================== *)
(** ** Runs of the deployment scripts on sample machines                  *)
(* ===================================================================== *)

Module Machine.
Import Node.

(** A machine on which every command succeeds. *)
Definition works (c : Command) (w : unit) : option string * unit := (Some "ok", w).

(** No docker, and a node far older than the table's minimum. *)
Definition bare (c : Command) (w : unit) : option string * unit :=
  if String.eqb (line c) "docker --version" then (None, w)
  else if String.eqb (line c) "node --version" then (Some "v10.24.1", w)
  else (Some "ok", w).

(** The deployment of the API stack fails. *)
Definition api_fails (c : Command) (w : unit) : option string * unit :=
  if String.eqb (line c) (line (deploy_command "SpendOptimoApi")) then (None, w)
  else (Some "ok", w).

Definition present (p : string) (w : unit) : bool := true.

Definition no_outputs (s : string) : option (list (string * string)) := Some [].

Example api_failure_halts_everything :
  outcome_of unit (main unit api_fails present no_outputs tt) = Exited 1 /\
  omap (fun e => match e with
                 | Spawned c => if String.prefix "npx cdk deploy" (line c)
                                then Some (line c) else None
                 | Probed _ => None
                 end)
       (events_of unit (main unit api_fails present no_outputs tt))
    = [ "npx cdk deploy SpendOptimoIam --require-approval never";
        "npx cdk deploy SpendOptimoSageMaker --require-approval never";
        "npx cdk deploy SpendOptimoApi --require-approval never" ].
Proof. vm_compute. split; reflexivity. Qed.

(** There the third deployment is the first to fail, and the last one run. *)
Example api_is_the_first_failure :
  succeeded unit api_fails stacks tt 0 = true /\
  succeeded unit api_fails stacks tt 1 = true /\
  failed unit api_fails stacks tt 2 = true /\
  events_of unit (deployStacks unit api_fails tt)
    = Spawned ∘ deploy_command <$> take 3 stacks.
Proof. repeat split. Qed.

Example blank_lookup_uploads_nothing :
  deploy_ui_script unit (fun c w => (Some "  ", w)) (fun _ => "") "/repo" tt
  = (Exited 1, tt, [Spawned (build_command "/repo"); Spawned lookup_command]).
Proof. reflexivity. Qed.

(** Old node, no docker: the prerequisites pass all the same. *)
Lemma old_node_passes_the_check :
  outcome_of unit (checkPrerequisites unit bare tt) = Returned tt.
Proof.
  apply (proj2 (prerequisites_only_need_commands_to_run unit bare tt)).
  intros c w' Hin Hopt. cbn in Hin.
  repeat (destruct Hin as [<-|Hin]); try contradiction; try discriminate Hopt;
    cbn; discriminate.
Defined.

Lemma full_run_deploys_ui_last :
  exists w0 pre post,
    preparation unit works present tt = (Returned tt, w0, pre) /\
    (forall i, i < 6 -> succeeded unit works stacks w0 i = true) /\
    deployStacks unit works w0
      = (Returned tt, deployed unit works stacks w0, all_deployed) /\
    events_of unit (main unit works present no_outputs tt)
      = pre ++ all_deployed ++ Spawned ui_command :: post.
Proof.
  apply (proj2 (ui_is_deployed_after_all_stacks unit works present no_outputs tt)).
  vm_compute. repeat first [left; reflexivity | right].
Defined.

Definition ui_outputs : list (string * string) :=
  [ ("CdnUrl", "https://d111.cloudfront.net"); ("BucketName", "site-bucket") ].

Definition agentcore_outputs : list (string * string) :=
  [ ("CognitoDomain", "spendoptimo.auth.example");
    ("CognitoUserPoolClientId", "client-1") ].

Definition sample_outputs : Outputs :=
  <["SpendOptimoUi" := set_outputs ui_outputs]>
    (<["SpendOptimoAgentCore" := set_outputs agentcore_outputs]> ∅).

Example sample_summary :
  displaySummary sample_outputs
  = [ CognitoLogin (App.login_url "spendoptimo.auth.example" "client-1");
      ClientId "client-1" ].
Proof. vm_compute. reflexivity. Qed.

Lemma deployed_ui_still_redirects_to_localhost :
  exists domain client,
    App.login_url "spendoptimo.auth.example" "client-1" = App.login_url domain client.
Proof.
  apply (proj2 (App.summary_never_finds_the_web_url sample_outputs ui_outputs
                  (or_intror (conj eq_refl eq_refl)))).
  rewrite sample_summary. left. reflexivity.
Defined.

Lemma api_is_deployed_before_agentcore :
  exists j,
    j < 3 /\
    events_of unit (deployStacks unit works tt) !! j
      = Some (Spawned (deploy_command "SpendOptimoApi")).
Proof.
  apply (App.deployment_follows_dependencies unit works tt
           "SpendOptimoAgentCore" "SpendOptimoApi" 3).
  - cbn. left. reflexivity.
  - reflexivity.
Defined.

End Machine.

(* ===================================================================== *)
(** ** The image build trigger (inline handler of ApiImageBuildTrigger)   *)
(* ===================================================================== *)

Module BuildTrigger.

(** The custom resource event, as far as the handler reads it. *)
Record Event := {
  RequestType : option string;
  PhysicalResourceId : option string
}.

(** The dictionary the handler returns. *)
Record Response := {
  physical_resource_id : string;
  data : list (string * string)
}.

(** What the handler does to the outside, in order. *)
Inductive Call :=
| StartBuild (project : string)
| Sleep (seconds : nat)
| BatchGetBuilds (id : string)
| DescribeImages (repository tag : string).

(** A client call answers or raises. *)
Inductive Reply (A : Type) :=
| Answered (a : A)
| Failed (error : string).
Arguments Answered {A} a.
Arguments Failed {A} error.

(** How an invocation ends; [TimedOut] is the function's own timeout
    cutting the polling loop short. *)
Inductive Result :=
| Returned (r : Response)
| Raised (message : string)
| TimedOut.

Definition final_statuses : list string :=
  [ "SUCCEEDED"; "FAILED"; "FAULT"; "STOPPED"; "TIMED_OUT" ].

Definition is_final (status : option string) : bool :=
  match status with
  | Some s => existsb (String.eqb s) final_statuses
  | None => false
  end.

Fixpoint environ_get (k : string) (env : list (string * string)) : option string :=
  match env with
  | [] => None
  | (k', v) :: rest => if String.eqb k k' then Some v else environ_get k rest
  end.

Section Handler.

(** The function's environment and the two services. [start_build]
    answers the id found under [build.id], if any; [batch_get_builds n]
    is the answer to the poll made after [n] earlier ones: the
    [buildStatus] of the first build listed, if any; [describe_images n]
    says whether the lookup made after [n] failed ones finds the tag. *)
Variable environ : list (string * string).
Variable start_build : string -> Reply (option string).
Variable batch_get_builds : nat -> string -> Reply (option string).
Variable describe_images : nat -> string -> string -> bool.

(** [while True]: sleep, poll, stop on a final status. [polls] counts the
    polls already made, [fuel] those the timeout still allows. *)
Fixpoint poll (fuel polls : nat) (build_id : string) : option Result * list Call :=
  match fuel with
  | O => (Some TimedOut, [])
  | S fuel' =>
      match batch_get_builds polls build_id with
      | Failed e => (Some (Raised e), [Sleep 5; BatchGetBuilds build_id])
      | Answered status =>
          if is_final status then
            if String.eqb (default "" status) "SUCCEEDED" then
              (None, [Sleep 5; BatchGetBuilds build_id])
            else
              (Some (Raised ("Build " ++ build_id ++ " failed: " ++ default "" status)%string),
               [Sleep 5; BatchGetBuilds build_id])
          else
            let '(r, calls) := poll fuel' (S polls) build_id in
            (r, Sleep 5 :: BatchGetBuilds build_id :: calls)
      end
  end.

(** [for _ in range(left)]: look the tag up; stop when found, else sleep. *)
Fixpoint wait_for_image (left failed : nat) (repo tag : string) : list Call :=
  match left with
  | O => []
  | S left' =>
      if describe_images failed repo tag then [DescribeImages repo tag]
      else DescribeImages repo tag :: Sleep 2 :: wait_for_image left' (S failed) repo tag
  end.

Definition is_delete (event : Event) : bool :=
  match RequestType event with
  | Some t => String.eqb t "Delete"
  | None => false
  end.

Definition key_error (k : string) : Result := Raised ("KeyError: '" ++ k ++ "'")%string.

Definition handler (fuel : nat) (event : Event) : Result * list Call :=
  match environ_get "PROJECT" environ with
  | None => (key_error "PROJECT", [])
  | Some project =>
  match environ_get "REPO_NAME" environ with
  | None => (key_error "REPO_NAME", [])
  | Some repo_name =>
  match environ_get "IMAGE_TAG" environ with
  | None => (key_error "IMAGE_TAG", [])
  | Some image_tag =>
      let physical_id := ("ApiImageBuild-" ++ image_tag)%string in
      if is_delete event then
        (Returned {| physical_resource_id := default physical_id (PhysicalResourceId event);
                     data := [] |}, [])
      else
        match start_build project with
        | Failed e => (Raised e, [StartBuild project])
        | Answered build =>
            match build with
            | None | Some EmptyString =>
                (Raised "Failed to start CodeBuild build", [StartBuild project])
            | Some build_id =>
                match poll fuel 0 build_id with
                | (Some r, calls) => (r, StartBuild project :: calls)
                | (None, calls) =>
                    (Returned {| physical_resource_id := physical_id;
                                 data := [("ImageTag", image_tag)] |},
                     StartBuild project :: calls
                       ++ wait_for_image 60 0 repo_name image_tag)
                end
            end
        end
  end end end.

Definition is_start (c : Call) : bool :=
  match c with StartBuild _ => true | _ => false end.

Definition is_lookup (c : Call) : bool :=
  match c with DescribeImages _ _ => true | _ => false end.

Definition slept (calls : list Call) : nat :=
  fold_right (fun c n => match c with Sleep s => s + n | _ => n end) 0 calls.

(** One round of the polling loop, [n] times over. *)
Fixpoint rounds (n : nat) (build_id : string) : list Call :=
  match n with
  | O => []
  | S n' => Sleep 5 :: BatchGetBuilds build_id :: rounds n' build_id
  end.

(** The polls from [from] up to [upto] answered with a status that is not
    final. *)
Definition still_running (build_id : string) (from upto : nat) : Prop :=
  forall m, from <= m < upto ->
    exists status, batch_get_builds m build_id = Answered status /\ is_final status = false.

Lemma poll_calls (fuel polls : nat) (build_id : string) :
  exists n, n <= fuel /\ (poll fuel polls build_id).2 = rounds n build_id.
Proof.
  revert polls. induction fuel as [|fuel IH]; intros polls; cbn [poll].
  - exists 0. split; [lia|reflexivity].
  - destruct (batch_get_builds polls build_id) as [status|e].
    + destruct (is_final status).
      * destruct (String.eqb (default "" status) "SUCCEEDED");
          exists 1; split; try lia; reflexivity.
      * destruct (IH (S polls)) as (n & Hn & Hc).
        destruct (poll fuel (S polls) build_id) as [r calls]. cbn in *.
        exists (S n). split; [lia|]. rewrite Hc. reflexivity.
    + exists 1. split; [lia|reflexivity].
Qed.

Lemma final_succeeded (status : option string) :
  String.eqb (default "" status) "SUCCEEDED" = true -> status = Some "SUCCEEDED".
Proof.
  destruct status as [s|]; cbn; [|discriminate].
  intros H. apply String.eqb_eq in H. subst. reflexivity.
Qed.

Lemma poll_passed (fuel polls : nat) (build_id : string) (calls : list Call) :
  poll fuel polls build_id = (None, calls) ->
  exists n,
    polls <= n < polls + fuel /\
    batch_get_builds n build_id = Answered (Some "SUCCEEDED") /\
    still_running build_id polls n /\
    calls = rounds (S (n - polls)) build_id.
Proof.
  revert polls calls. induction fuel as [|fuel IH]; intros polls calls; cbn [poll].
  - discriminate.
  - destruct (batch_get_builds polls build_id) as [status|e] eqn:Hb; [|discriminate].
    destruct (is_final status) eqn:Hf.
    + destruct (String.eqb (default "" status) "SUCCEEDED") eqn:Hs; [|discriminate].
      intros [= <-]. exists polls. split; [lia|].
      apply final_succeeded in Hs. subst status.
      split; [exact Hb|]. split; [intros m Hm; lia|].
      replace (polls - polls) with 0 by lia. reflexivity.
    + destruct (poll fuel (S polls) build_id) as [r calls'] eqn:Hp.
      intros [= -> <-].
      destruct (IH (S polls) calls' Hp) as (n & Hn & Hok & Hrun & Hcalls).
      exists n. split; [lia|]. split; [exact Hok|]. split.
      * intros m Hm. destruct (decide (m = polls)) as [->|Hne]; [eauto|].
        apply Hrun. lia.
      * replace (n - polls) with (S (n - S polls)) by lia.
        rewrite Hcalls. reflexivity.
Qed.

Lemma poll_reaches (fuel polls n : nat) (build_id status : string) :
  still_running build_id polls n ->
  batch_get_builds n build_id = Answered (Some status) ->
  is_final (Some status) = true ->
  polls <= n -> n - polls < fuel ->
  poll fuel polls build_id =
    (if String.eqb status "SUCCEEDED" then None
     else Some (Raised ("Build " ++ build_id ++ " failed: " ++ status)%string),
     rounds (S (n - polls)) build_id).
Proof.
  revert polls. induction fuel as [|fuel IH]; intros polls Hrun Hn Hf Hle Hlt; [lia|].
  cbn [poll]. destruct (decide (polls = n)) as [->|Hne].
  - rewrite Hn, Hf. change (default "" (Some status)) with status.
    replace (n - n) with 0 by lia.
    destruct (String.eqb status "SUCCEEDED"); reflexivity.
  - destruct (Hrun polls ltac:(lia)) as (st & Hst & Hnf).
    rewrite Hst, Hnf.
    rewrite (IH (S polls)); [| |exact Hn|exact Hf|lia|lia].
    + replace (n - polls) with (S (n - S polls)) by lia. reflexivity.
    + intros m Hm. apply Hrun. lia.
Qed.

Lemma wait_for_image_bounds (left failed : nat) (repo tag : string) :
  length (List.filter is_lookup (wait_for_image left failed repo tag)) <= left /\
  slept (wait_for_image left failed repo tag) <= 2 * left /\
  List.filter is_start (wait_for_image left failed repo tag) = [].
Proof.
  revert failed. induction left as [|left IH]; intros failed; cbn [wait_for_image].
  - cbn. repeat split; lia.
  - destruct (describe_images failed repo tag); cbn.
    + repeat split; lia.
    + destruct (IH (S failed)) as (H1 & H2 & H3). unfold slept in *.
      repeat split; auto; lia.
Qed.

Lemma rounds_facts (n : nat) (build_id : string) :
  List.filter is_start (rounds n build_id) = [] /\
  List.filter is_lookup (rounds n build_id) = [] /\
  slept (rounds n build_id) = 5 * n.
Proof.
  induction n as [|n (H1 & H2 & H3)]; cbn; [auto|].
  unfold slept in *. repeat split; auto. lia.
Qed.

Lemma poll_never_returns (fuel polls : nat) (build_id : string) (r : Response) :
  (poll fuel polls build_id).1 <> Some (Returned r).
Proof.
  revert polls. induction fuel as [|fuel IH]; intros polls; cbn [poll]; [discriminate|].
  destruct (batch_get_builds polls build_id) as [status|e]; [|discriminate].
  destruct (is_final status).
  - destruct (String.eqb (default "" status) "SUCCEEDED"); discriminate.
  - specialize (IH (S polls)).
    destruct (poll fuel (S polls) build_id) as [r0 calls]. exact IH.
Qed.

Lemma slept_app (a b : list Call) : slept (a ++ b) = slept a + slept b.
Proof.
  unfold slept. induction a as [|[] a IH]; cbn; auto. lia.
Qed.

Lemma handler_calls (fuel : nat) (event : Event) :
  exists (first : list Call) (n : nat) (build_id : string) (last : list Call),
    (handler fuel event).2 = first ++ rounds n build_id ++ last /\
    (first = [] \/ exists project, first = [StartBuild project]) /\
    (last = [] \/ exists repo tag, last = wait_for_image 60 0 repo tag).
Proof.
  assert (Hnone : exists (first : list Call) (n : nat) (build_id : string)
                         (last : list Call),
             @nil Call = first ++ rounds n build_id ++ last /\
             (first = [] \/ exists project, first = [StartBuild project]) /\
             (last = [] \/ exists repo tag, last = wait_for_image 60 0 repo tag)).
  { exists [], 0, "", []. repeat split; auto. }
  unfold handler.
  destruct (environ_get "PROJECT" environ) as [project|]; [|exact Hnone].
  destruct (environ_get "REPO_NAME" environ) as [repo|]; [|exact Hnone].
  destruct (environ_get "IMAGE_TAG" environ) as [tag|]; [|exact Hnone].
  destruct (is_delete event); [exact Hnone|].
  destruct (start_build project) as [[[|c id]|]|e];
    try solve [exists [StartBuild project], 0, "", []; repeat split; eauto].
  destruct (poll_calls fuel 0 (String c id)) as (n & _ & Hc).
  destruct (poll fuel 0 (String c id)) as [[r|] calls]; cbn [snd] in Hc |- *; subst calls.
  - exists [StartBuild project], n, (String c id), []. rewrite app_nil_r.
    repeat split; eauto.
  - exists [StartBuild project], n, (String c id), (wait_for_image 60 0 repo tag).
    repeat split; eauto.
Qed.

Lemma handler_starts (fuel : nat) (event : Event) :
  length (List.filter is_start (handler fuel event).2) <= 1.
Proof.
  destruct (handler_calls fuel event) as (first & n & id & last & -> & Hf & Hl).
  rewrite !List.filter_app, (proj1 (rounds_facts n id)), !length_app.
  assert (length (List.filter is_start first) <= 1)
    by (destruct Hf as [->|[p ->]]; cbn; lia).
  assert (length (List.filter is_start last) = 0).
  { destruct Hl as [->|(repo & tag & ->)]; [reflexivity|].
    now rewrite (proj2 (proj2 (wait_for_image_bounds 60 0 repo tag))). }
  cbn. lia.
Qed.


Definition built (image_tag : string) : Response :=
  {| physical_resource_id := ("ApiImageBuild-" ++ image_tag)%string;
     data := [("ImageTag", image_tag)] |}.

(** X9. An invocation starts at most one build, and a Delete event starts
    none: it makes no call at all, and what it returns carries no data and
    keeps the physical resource id the event came with. *)
Theorem delete_starts_no_build :
  forall (fuel : nat) (event : Event),
    length (List.filter is_start (handler fuel event).2) <= 1 /\
    (RequestType event = Some "Delete" ->
     (handler fuel event).2 = [] /\
     forall r, (handler fuel event).1 = Returned r ->
       data r = [] /\
       forall id, PhysicalResourceId event = Some id -> physical_resource_id r = id).
Proof.
  intros fuel event. split; [apply handler_starts|].
  intros Hdel. unfold handler, is_delete. rewrite Hdel.
  destruct (environ_get "PROJECT" environ) as [project|];
    [|split; [reflexivity|intros r [=]]].
  destruct (environ_get "REPO_NAME" environ) as [repo|];
    [|split; [reflexivity|intros r [=]]].
  destruct (environ_get "IMAGE_TAG" environ) as [tag|];
    [|split; [reflexivity|intros r [=]]].
  cbn. split; [reflexivity|].
  intros r [= <-]. cbn. split; [reflexivity|].
  intros id ->. reflexivity.
Qed.

(** X10. On an event other than Delete the handler returns only when the
    build it started was reported SUCCEEDED by some poll, every earlier
    poll having shown a status that is not final; it then returns the id
    ApiImageBuild-<tag> with the image tag as data, having slept five
    seconds per poll and at most 120 seconds waiting for the image. *)
Theorem success_means_the_build_succeeded :
  forall (fuel : nat) (event : Event) (r : Response),
    (handler fuel event).1 = Returned r ->
    is_delete event = false ->
    exists project image_tag build_id n,
      environ_get "PROJECT" environ = Some project /\
      environ_get "IMAGE_TAG" environ = Some image_tag /\
      start_build project = Answered (Some build_id) /\
      build_id <> "" /\
      n < fuel /\
      batch_get_builds n build_id = Answered (Some "SUCCEEDED") /\
      still_running build_id 0 n /\
      r = built image_tag /\
      slept (handler fuel event).2 <= 5 * S n + 120.
Proof.
  intros fuel event r. unfold handler.
  destruct (environ_get "PROJECT" environ) as [project|]; [|discriminate].
  destruct (environ_get "REPO_NAME" environ) as [repo|]; [|discriminate].
  destruct (environ_get "IMAGE_TAG" environ) as [tag|]; [|discriminate].
  intros H Hd. rewrite Hd in H |- *.
  destruct (start_build project) as [[[|c id]|]|e] eqn:Hs; try discriminate.
  destruct (poll fuel 0 (String c id)) as [[r'|] calls] eqn:Hp.
  - exfalso. cbn in H. subst r'. apply (poll_never_returns fuel 0 (String c id) r).
    now rewrite Hp.
  - cbn in H. injection H as <-.
    destruct (poll_passed fuel 0 _ calls Hp) as (n & Hn & Hok & Hrun & Hcalls).
    exists project, tag, (String c id), n.
    repeat (split; [first [reflexivity | discriminate | lia | assumption]|]).
    cbn [snd]. rewrite Hcalls. replace (n - 0) with n by lia.
    pose proof (proj1 (proj2 (wait_for_image_bounds 60 0 repo tag))) as Hw.
    pose proof (proj2 (proj2 (rounds_facts (S n) (String c id)))) as Hr.
    change (slept (StartBuild project :: rounds (S n) (String c id)
                     ++ wait_for_image 60 0 repo tag))
      with (slept (rounds (S n) (String c id) ++ wait_for_image 60 0 repo tag)).
    rewrite slept_app, Hr. lia.
Qed.

(** X11. A build that ends FAILED, FAULT, STOPPED or TIMED_OUT makes the
    handler raise an exception naming the build and the status right after
    the poll that saw it: the image repository is never looked at. *)
Theorem failed_build_raises :
  forall (fuel : nat) (event : Event) (project repo image_tag build_id status : string)
         (n : nat),
    environ_get "PROJECT" environ = Some project ->
    environ_get "REPO_NAME" environ = Some repo ->
    environ_get "IMAGE_TAG" environ = Some image_tag ->
    is_delete event = false ->
    start_build project = Answered (Some build_id) ->
    build_id <> "" ->
    still_running build_id 0 n ->
    batch_get_builds n build_id = Answered (Some status) ->
    In status [ "FAILED"; "FAULT"; "STOPPED"; "TIMED_OUT" ] ->
    n < fuel ->
    handler fuel event
      = (Raised ("Build " ++ build_id ++ " failed: " ++ status)%string,
         StartBuild project :: rounds (S n) build_id).
Proof.
  intros fuel event project repo tag id status n Hp Hr Ht Hd Hs Hid Hrun Hn Hin Hlt.
  unfold handler. rewrite Hp, Hr, Ht, Hd, Hs.
  destruct id as [|c id]; [contradiction|].
  rewrite (poll_reaches fuel 0 n (String c id) status Hrun Hn); [| |lia|lia].
  - replace (n - 0) with n by lia.
    cbn in Hin. destruct Hin as [<-|[<-|[<-|[<-|[]]]]]; reflexivity.
  - cbn in Hin. destruct Hin as [<-|[<-|[<-|[<-|[]]]]]; reflexivity.
Qed.

End Handler.

End BuildTrigger.

Module BuildTriggerFacts.
Import BuildTrigger.


End BuildTriggerFacts.

(** * A build that takes three polls *)

Module Build.
Import BuildTrigger.

Definition environ : list (string * string) :=
  [ ("PROJECT", "api-image"); ("REPO_NAME", "spendoptimo-api"); ("IMAGE_TAG", "4f2a") ].

Definition start_build (project : string) : Reply (option string) :=
  Answered (Some (project ++ ":1")%string).

(** Two polls in progress, then the final status [last]. *)
Definition batch_get_builds (last : string) (polls : nat) (build_id : string)
  : Reply (option string) :=
  if Nat.ltb polls 2 then Answered (Some "IN_PROGRESS") else Answered (Some last).

(** The tag never becomes visible in the repository. *)
Definition describe_images (failed : nat) (repo tag : string) : bool := false.

Definition create : Event :=
  {| RequestType := Some "Create"; PhysicalResourceId := None |}.

Lemma running (last : string) :
  still_running (batch_get_builds last) "api-image:1" 0 2.
Proof.
  intros m Hm. exists (Some "IN_PROGRESS"). split; [|reflexivity].
  destruct m as [|[|m]]; [reflexivity|reflexivity|lia].
Defined.

Lemma succeeded_build_returns_the_tag :
  exists project image_tag build_id n,
    environ_get "PROJECT" environ = Some project /\
    environ_get "IMAGE_TAG" environ = Some image_tag /\
    start_build project = Answered (Some build_id) /\
    build_id <> "" /\
    n < 10 /\
    batch_get_builds "SUCCEEDED" n build_id = Answered (Some "SUCCEEDED") /\
    still_running (batch_get_builds "SUCCEEDED") build_id 0 n /\
    built "4f2a" = built image_tag /\
    slept (handler environ start_build (batch_get_builds "SUCCEEDED") describe_images
             10 create).2 <= 5 * S n + 120.
Proof.
  apply (success_means_the_build_succeeded environ start_build
           (batch_get_builds "SUCCEEDED") describe_images 10 create (built "4f2a"));
    reflexivity.
Defined.

Lemma stopped_build_raises :
  handler environ start_build (batch_get_builds "STOPPED") describe_images 10 create
    = (Raised "Build api-image:1 failed: STOPPED",
       [ StartBuild "api-image";
         Sleep 5; BatchGetBuilds "api-image:1";
         Sleep 5; BatchGetBuilds "api-image:1";
         Sleep 5; BatchGetBuilds "api-image:1" ]).
Proof.
  apply (failed_build_raises environ start_build (batch_get_builds "STOPPED")
           describe_images 10 create "api-image" "spendoptimo-api" "4f2a"
           "api-image:1" "STOPPED" 2);
    try reflexivity.
  - discriminate.
  - apply running.
  - cbn. auto.
  - lia.
Defined.

End Build.

(** * The policies of the other roles

    Besides the executor and read roles, three more principals get a
    policy of their own: the API Lambda (statements added with
    [addToRolePolicy], and the one [grantStartExecution] adds), the
    analysis agent's role and the workflow agent's role (statements added
    with [addToPolicy]).  They are evaluated with the evaluator of [Iam]. *)

Module Grants.
Import Iam.

(** [new iam.PolicyStatement({ actions, resources })]: no conditions. *)
Definition statement (acts res : list string) : PolicyStatement :=
  {| actions := acts; resources := res; conditions := [] |}.

Definition allows (statements : list PolicyStatement) (q : Request) : bool :=
  existsb (fun s => statement_allows s q) statements.

Definition nova_models : list string :=
  [ "arn:aws:bedrock:us-east-1::foundation-model/amazon.nova-pro-v1:0";
    "arn:aws:bedrock:us-east-1::foundation-model/amazon.nova-lite-v1:0";
    "arn:aws:bedrock:us-east-1::foundation-model/amazon.nova-micro-v1:0" ].

Definition pull_statements (repositoryArn : string) : list PolicyStatement :=
  [ statement [ "ecr:GetAuthorizationToken" ] [ "*" ];
    statement [ "ecr:BatchCheckLayerAvailability"; "ecr:GetDownloadUrlForLayer";
                "ecr:BatchGetImage" ]
              [ repositoryArn ] ].

Definition runtime_statements : list PolicyStatement :=
  [ statement [ "logs:CreateLogGroup"; "logs:CreateLogStream"; "logs:PutLogEvents";
                "logs:DescribeLogGroups"; "logs:DescribeLogStreams" ]
              [ "*" ];
    statement [ "xray:PutTraceSegments"; "xray:PutTelemetryRecords" ] [ "*" ];
    statement [ "bedrock:InvokeModel"; "bedrock:InvokeModelWithResponseStream";
                "bedrock:Converse"; "bedrock:ConverseStream" ]
              nova_models ].

(** [SpendOptimoAgentCoreRole], the analysis agent. *)
Definition analysis_agent (repositoryArn : string) : list PolicyStatement :=
  pull_statements repositoryArn ++ runtime_statements ++
  [ statement [ "ce:GetCostAndUsage"; "ce:GetDimensionValues"; "ce:GetReservationCoverage";
                "ce:GetReservationPurchaseRecommendation"; "ce:GetReservationUtilization";
                "ce:GetRightsizingRecommendation"; "ce:GetSavingsPlansUtilization";
                "ce:GetSavingsPlansUtilizationDetails";
                "ce:GetSavingsPlansUtilizationDetails";
                "ce:GetUsageReport"; "ce:GetAnomalies"; "ce:GetAnomalyMonitors";
                "ce:GetAnomalySubscriptions" ]
              [ "*" ];
    statement [ "compute-optimizer:GetEC2InstanceRecommendations";
                "compute-optimizer:GetEC2RecommendationProjectedMetrics";
                "compute-optimizer:GetAutoScalingGroupRecommendations";
                "compute-optimizer:GetEBSVolumeRecommendations";
                "compute-optimizer:GetLambdaFunctionRecommendations";
                "compute-optimizer:GetEnrollmentStatus";
                "compute-optimizer:GetRecommendationSummaries" ]
              [ "*" ];
    statement [ "ec2:DescribeInstances"; "ec2:DescribeVolumes"; "ec2:DescribeSnapshots";
                "rds:DescribeDBInstances"; "rds:DescribeDBClusters";
                "lambda:ListFunctions"; "autoscaling:DescribeAutoScalingGroups";
                "s3:ListAllMyBuckets"; "s3:GetBucketLocation" ]
              [ "*" ] ].

(** [WorkflowAgentRole], the workflow agent. *)
Definition workflow_agent (repositoryArn : string) : list PolicyStatement :=
  pull_statements repositoryArn ++ runtime_statements ++
  [ statement [ "ec2:DescribeInstances"; "ec2:DescribeVolumes"; "ec2:DescribeSnapshots";
                "ec2:StopInstances"; "ec2:StartInstances"; "ec2:ModifyInstanceAttribute";
                "ec2:ModifyVolume";
                "cloudwatch:GetMetricStatistics"; "cloudwatch:PutMetricData" ]
              [ "*" ];
    statement [ "s3:ListAllMyBuckets"; "s3:GetBucketLocation";
                "s3:GetLifecycleConfiguration"; "s3:PutLifecycleConfiguration" ]
              [ "*" ];
    statement [ "lambda:ListFunctions"; "lambda:GetFunctionConcurrency";
                "lambda:PutFunctionConcurrency"; "lambda:UpdateFunctionConfiguration" ]
              [ "*" ];
    statement [ "rds:DescribeDBInstances"; "rds:DescribeDBClusters";
                "rds:ModifyDBInstance" ]
              [ "*" ] ].

(** The ARN of a parameter below [/spendoptimo/], and of a function whose
    name starts as the API Lambda's own does. *)
Definition parameter (region account name : string) : string :=
  ("arn:aws:ssm:" ++ region ++ ":" ++ account ++ ":parameter/spendoptimo/" ++ name)%string.

Definition own_function (region account suffix : string) : string :=
  ("arn:aws:lambda:" ++ region ++ ":" ++ account
     ++ ":function:SpendOptimoApi-SpendOptimoApiFn" ++ suffix)%string.

(** The role of [SpendOptimoApiFn]; the last statement is the one
    [stateMachine.grantStartExecution(apiFn)] adds. *)
Definition api_function (region account stateMachineArn : string) : list PolicyStatement :=
  [ statement [ "ssm:GetParameter"; "ssm:GetParameters"; "ssm:GetParameterHistory" ]
              [ ("arn:aws:ssm:" ++ region ++ ":" ++ account
                   ++ ":parameter/spendoptimo/agentcore/*")%string;
                ("arn:aws:ssm:" ++ region ++ ":" ++ account
                   ++ ":parameter/spendoptimo/workflow-agent/*")%string ];
    statement [ "lambda:InvokeFunction" ]
              [ ("arn:aws:lambda:" ++ region ++ ":" ++ account
                   ++ ":function:SpendOptimoApi-SpendOptimoApiFn*")%string ];
    statement [ "bedrock-agentcore:InvokeAgentRuntime" ] [ "*" ];
    statement [ "bedrock-agentcore:GetAgentRuntimeEndpoint";
                "bedrock-agentcore:ListAgentRuntimeEndpoints" ]
              [ "*" ];
    statement [ "ce:GetCostAndUsage"; "ce:GetCostForecast"; "ce:GetSavingsPlansCoverage";
                "ce:GetReservationCoverage"; "ce:GetAnomalies" ]
              [ "*" ];
    statement [ "compute-optimizer:GetEC2InstanceRecommendations";
                "compute-optimizer:GetAutoScalingGroupRecommendations";
                "compute-optimizer:GetEBSVolumeRecommendations";
                "compute-optimizer:GetRDSInstanceRecommendations";
                "compute-optimizer:GetLambdaFunctionRecommendations" ]
              [ "*" ];
    statement [ "ec2:DescribeInstances"; "ec2:DescribeVolumes"; "ec2:DescribeInstanceStatus";
                "ec2:StopInstances"; "ec2:StartInstances"; "ec2:ModifyInstanceAttribute";
                "ec2:ModifyVolume";
                "autoscaling:DescribeAutoScalingGroups";
                "autoscaling:DescribeLaunchConfigurations";
                "lambda:ListFunctions"; "lambda:ListProvisionedConcurrencyConfigs";
                "lambda:GetProvisionedConcurrencyConfig"; "lambda:GetFunctionConfiguration";
                "lambda:PutFunctionConcurrency"; "lambda:UpdateFunctionConfiguration";
                "rds:DescribeDBInstances"; "rds:ModifyDBInstance";
                "s3:ListAllMyBuckets"; "s3:GetLifecycleConfiguration";
                "s3:PutLifecycleConfiguration";
                "cloudwatch:GetMetricStatistics"; "cloudwatch:PutMetricData" ]
              [ "*" ];
    statement [ "states:StartExecution"; "states:DescribeExecution";
                "states:DescribeStateMachine" ]
              [ "*" ];
    statement [ "scheduler:CreateSchedule"; "scheduler:UpdateSchedule";
                "scheduler:DeleteSchedule"; "scheduler:GetSchedule" ]
              [ "*" ];
    statement [ "states:StartExecution" ] [ stateMachineArn ] ].

(** The actions that change a workload. *)
Definition changes : list string :=
  [ "ec2:StopInstances"; "ec2:StartInstances"; "ec2:ModifyInstanceAttribute";
    "ec2:ModifyVolume"; "lambda:PutFunctionConcurrency";
    "lambda:UpdateFunctionConfiguration"; "rds:ModifyDBInstance";
    "s3:PutLifecycleConfiguration" ].

(** A pattern without wildcards. *)
Definition wildcard (c : ascii) : bool := Ascii.eqb c "*" || Ascii.eqb c "?".

Fixpoint literal (p : string) : bool :=
  match p with
  | EmptyString => true
  | String c p' => negb (wildcard c) && literal p'
  end.

Lemma glob_any (s : string) : glob "*" s = true.
Proof.
  induction s as [|d s IH]; [reflexivity|].
  cbn. cbn in IH. exact IH.
Qed.

Lemma glob_literal_app (a p s : string) :
  literal a = true -> glob (a ++ p)%string s = true ->
  exists rest, s = (a ++ rest)%string /\ glob p rest = true.
Proof.
  revert s. induction a as [|c a IH]; intros s Hl H.
  - exists s. split; [reflexivity|exact H].
  - cbn [literal] in Hl. apply andb_prop in Hl as [Hc Hl].
    unfold wildcard in Hc. apply negb_true_iff, orb_false_iff in Hc as [Hstar Hany].
    change (glob (String c (a ++ p)%string) s = true) in H.
    cbn [glob] in H. rewrite Hstar in H.
    destruct s as [|d s]; [discriminate|].
    rewrite Hany in H. cbn [orb] in H. apply andb_prop in H as [Hcd H].
    apply Ascii.eqb_eq in Hcd as ->.
    destruct (IH s Hl H) as (rest & -> & Hp). exists rest. auto.
Qed.

Lemma append_empty (p : string) : (p ++ "")%string = p.
Proof.
  induction p as [|c p IH]; [reflexivity|].
  change (String c (p ++ "")%string = String c p). now rewrite IH.
Qed.

Lemma glob_literal (p s : string) :
  literal p = true -> glob p s = true -> s = p.
Proof.
  intros Hl H. rewrite <- (append_empty p) in H.
  destruct (glob_literal_app p "" s Hl H) as (rest & -> & Hr).
  destruct rest; [|discriminate]. apply append_empty.
Qed.

Lemma literal_glob (p : string) : literal p = true -> glob p p = true.
Proof.
  induction p as [|c p IH]; [reflexivity|]. cbn [literal]. intros Hl.
  apply andb_prop in Hl as [Hc Hl].
  unfold wildcard in Hc. apply negb_true_iff, orb_false_iff in Hc as [Hstar Hany].
  cbn [glob]. rewrite Hstar, Hany, Ascii.eqb_refl. cbn. auto.
Qed.

Lemma glob_prefix_any (a rest : string) :
  literal a = true -> glob (a ++ "*")%string (a ++ rest)%string = true.
Proof.
  induction a as [|c a IH]; intros Hl.
  - apply glob_any.
  - cbn [literal] in Hl. apply andb_prop in Hl as [Hc Hl].
    unfold wildcard in Hc. apply negb_true_iff, orb_false_iff in Hc as [Hstar Hany].
    change (glob (String c (a ++ "*")%string) (String c (a ++ rest)%string) = true).
    cbn [glob]. rewrite Hstar, Hany, Ascii.eqb_refl. cbn. auto.
Qed.

Lemma allows_statement (statements : list PolicyStatement) (q : Request) :
  allows statements q = true <->
  exists s, In s statements /\ statement_allows s q = true.
Proof. apply existsb_exists. Qed.

(** A statement whose action patterns are literal allows only the actions
    it lists. *)
Lemma statement_action (s : PolicyStatement) (q : Request) :
  forallb literal (actions s) = true ->
  statement_allows s q = true -> In (req_action q) (actions s).
Proof.
  unfold statement_allows. intros Hl H.
  apply andb_prop in H as [H _]. apply andb_prop in H as [H _].
  apply existsb_exists in H as (p & Hin & Hp).
  rewrite forallb_forall in Hl.
  now rewrite (glob_literal p (req_action q) (Hl p Hin) Hp).
Qed.

Lemma statement_resource (s : PolicyStatement) (q : Request) :
  statement_allows s q = true ->
  exists p, In p (resources s) /\ glob p (req_resource q) = true.
Proof.
  unfold statement_allows. intros H.
  apply andb_prop in H as [H _]. apply andb_prop in H as [_ H].
  now apply existsb_exists in H.
Qed.

(** A statement on every resource, without conditions, allows each action
    it lists on any resource in any context. *)
Lemma open_statement (acts : list string) (q : Request) :
  forallb literal acts = true -> In (req_action q) acts ->
  statement_allows (statement acts [ "*" ]) q = true.
Proof.
  intros Hl Hin. unfold statement_allows, statement. cbn [actions resources conditions].
  rewrite forallb_forall in Hl.
  replace (existsb (fun p => glob p (req_action q)) acts) with true.
  - cbn [existsb forallb]. now rewrite glob_any.
  - symmetry. apply existsb_exists. exists (req_action q).
    split; [exact Hin|]. apply literal_glob, Hl, Hin.
Qed.

(** A wildcard pattern [a*] on every resource, without conditions, allows
    every action that starts with [a]. *)
Lemma wildcard_grant (s : PolicyStatement) (a rest resource : string)
      (ctx : list (string * string)) :
  In (a ++ "*")%string (actions s) -> literal a = true ->
  In "*" (resources s) -> conditions s = [] ->
  statement_allows s {| req_action := (a ++ rest)%string; req_resource := resource;
                        req_context := ctx |} = true.
Proof.
  intros Ha Hl Hr Hc. unfold statement_allows. cbn [req_action req_resource req_context].
  rewrite Hc. cbn [forallb]. rewrite andb_true_r. apply andb_true_iff. split.
  - apply existsb_exists. exists (a ++ "*")%string. split; [exact Ha|].
    apply glob_prefix_any, Hl.
  - apply existsb_exists. exists "*". split; [exact Hr|apply glob_any].
Qed.

Ltac find_grant :=
  lazymatch goal with
  | |- (_ || _) = true =>
      apply orb_true_iff;
      first [ left; solve [apply open_statement; [reflexivity | cbn; tauto]]
            | right; find_grant ]
  end.

Ltac other_action Hs Hpre :=
  apply statement_action in Hs; [|reflexivity];
  cbn [actions statement In] in Hs;
  repeat (destruct Hs as [Hs|Hs]; [rewrite <- Hs in Hpre; discriminate Hpre|]);
  contradiction.

(** X13. The eight actions that change a workload (stop, start or modify
    an EC2 instance or volume, change a Lambda function's concurrency or
    configuration, modify an RDS instance, put a bucket lifecycle) are
    allowed to the API Lambda and to the workflow agent on every resource,
    whatever its tags; the analysis agent's role allows none of them. *)
Theorem who_may_change_workloads :
  forall (region account stateMachineArn repositoryArn : string) (q : Request),
    In (req_action q) changes ->
    allows (api_function region account stateMachineArn) q = true /\
    allows (workflow_agent repositoryArn) q = true /\
    allows (analysis_agent repositoryArn) q = false.
Proof.
  intros region account sm repo [a r ctx] Hin. cbn [req_action] in Hin.
  unfold changes in Hin. cbn [In] in Hin.
  repeat (destruct Hin as [<-|Hin]); try contradiction;
    (split; [|split]);
    first [ reflexivity
          | unfold allows, api_function, workflow_agent, pull_statements,
              runtime_statements; cbn [app existsb]; find_grant ].
Qed.

(** X14. Both agents may call Bedrock only on the three Nova foundation
    models: a request for an action of the bedrock service that either
    agent's policy allows names one of those three model ARNs. *)
Theorem agents_invoke_only_nova_models :
  forall (repositoryArn : string) (q : Request),
    allows (analysis_agent repositoryArn) q = true \/
    allows (workflow_agent repositoryArn) q = true ->
    String.prefix "bedrock:" (req_action q) = true ->
    In (req_resource q) nova_models.
Proof.
  intros repo q H Hpre.
  assert (Hs : statement_allows
                 (statement [ "bedrock:InvokeModel"; "bedrock:InvokeModelWithResponseStream";
                              "bedrock:Converse"; "bedrock:ConverseStream" ]
                            nova_models) q = true).
  { destruct H as [H|H]; apply allows_statement in H as (s & Hin & Hs);
      unfold analysis_agent, workflow_agent, pull_statements, runtime_statements in Hin;
      cbn [app In] in Hin;
      repeat (destruct Hin as [<-|Hin]); try contradiction;
      first [ exact Hs | other_action Hs Hpre ]. }
  destruct (statement_resource _ q Hs) as (p & Hp & Hglob).
  cbn [resources statement] in Hp. unfold nova_models in Hp |- *. cbn [In] in Hp |- *.
  repeat (destruct Hp as [<-|Hp];
          [apply glob_literal in Hglob; [rewrite Hglob; tauto|reflexivity]|]).
  contradiction.
Qed.

(** X15. What the API Lambda may read from the parameter store lies
    below /spendoptimo/ in its own account and region, and the only
    functions it may invoke are those of that account and region whose
    name starts with SpendOptimoApi-SpendOptimoApiFn; region and account
    are plain text, with no wildcard character of their own. *)
Theorem api_function_stays_in_its_namespace :
  forall (region account stateMachineArn : string) (q : Request),
    literal region = true -> literal account = true ->
    allows (api_function region account stateMachineArn) q = true ->
    (String.prefix "ssm:" (req_action q) = true ->
     exists name, req_resource q = parameter region account name) /\
    (String.prefix "lambda:Invoke" (req_action q) = true ->
     exists suffix, req_resource q = own_function region account suffix).
Proof.
  intros region account sm q Hregion Haccount H.
  apply allows_statement in H as (s & Hin & Hs).
  unfold api_function in Hin. cbn [In] in Hin.
  assert (Harn : forall service tail rest,
             glob (service ++ region ++ ":" ++ account ++ tail)%string rest = true ->
             literal service = true ->
             exists rest', rest = (service ++ region ++ ":" ++ account ++ rest')%string /\
                           glob tail rest' = true).
  { intros service tail rest Hg Hl.
    apply glob_literal_app in Hg as (r1 & -> & Hg); [|exact Hl].
    apply glob_literal_app in Hg as (r2 & -> & Hg); [|exact Hregion].
    apply (glob_literal_app ":") in Hg as (r3 & -> & Hg); [|reflexivity].
    apply glob_literal_app in Hg as (r4 & -> & Hg); [|exact Haccount].
    exists r4. auto. }
  split; intros Hpre.
  - repeat (destruct Hin as [<-|Hin]); try contradiction;
      try solve [other_action Hs Hpre].
    destruct (statement_resource _ q Hs) as (p & Hp & Hglob).
    cbn [resources statement In] in Hp. unfold parameter.
    destruct Hp as [<-|[<-|[]]];
      apply Harn in Hglob as (rest & -> & Hglob); try reflexivity.
    + apply (glob_literal_app ":parameter/spendoptimo/agentcore/" "*") in Hglob
        as (name & -> & _); [|reflexivity].
      exists ("agentcore/" ++ name)%string. reflexivity.
    + apply (glob_literal_app ":parameter/spendoptimo/workflow-agent/" "*") in Hglob
        as (name & -> & _); [|reflexivity].
      exists ("workflow-agent/" ++ name)%string. reflexivity.
  - repeat (destruct Hin as [<-|Hin]); try contradiction;
      try solve [other_action Hs Hpre].
    destruct (statement_resource _ q Hs) as (p & Hp & Hglob).
    cbn [resources statement In] in Hp. unfold own_function.
    destruct Hp as [<-|[]].
    apply Harn in Hglob as (rest & -> & Hglob); try reflexivity.
    apply (glob_literal_app ":function:SpendOptimoApi-SpendOptimoApiFn" "*") in Hglob
      as (suffix & -> & _); [|reflexivity].
    exists suffix. reflexivity.
Qed.

(** X16. Of the actions the executor role is given, the read role's own
    policy allows only the two that read (s3:GetLifecycleConfiguration and
    eks:DescribeNodegroup): it can stop, start or modify nothing the
    executor can. *)
Theorem read_role_shares_only_reads_with_the_executor :
  forall (q : Request),
    In (req_action q) (actions executorStatement) ->
    inline_policy_allows readRole q = true ->
    In (req_action q) [ "s3:GetLifecycleConfiguration"; "eks:DescribeNodegroup" ].
Proof.
  intros [a r ctx] Hin H. cbn [req_action] in *.
  cbn [actions executorStatement In] in Hin.
  repeat (destruct Hin as [<-|Hin]); try contradiction;
    first [ cbn; tauto
          | exfalso; revert H;
            match goal with
            | |- ?x = true -> False => assert (E : x = false) by reflexivity; rewrite E
            end; discriminate ].
Qed.

(** X17. The read role is not limited to reading: its own policy allows
    every action of Cost Explorer, Athena, Glue and Compute Optimizer,
    whatever its name, on every resource. *)
Theorem read_role_allows_whole_services :
  forall (service name resource : string) (ctx : list (string * string)),
    In service [ "ce:"; "athena:"; "glue:"; "compute-optimizer:" ] ->
    inline_policy_allows readRole
      {| req_action := (service ++ name)%string; req_resource := resource;
         req_context := ctx |} = true.
Proof.
  intros service name resource ctx Hin.
  unfold inline_policy_allows. cbn [policy readRole addToPolicy addManagedPolicy newRole app
                                    existsb].
  rewrite orb_false_r. cbn [In] in Hin.
  repeat (destruct Hin as [<-|Hin]); try contradiction;
    (apply wildcard_grant; [cbn; tauto | reflexivity | cbn; tauto | reflexivity]).
Qed.

End Grants.

(** * Requests against those policies *)

Module Requests.
Import Iam Grants.

Definition region : string := "us-east-1".
Definition account : string := "111122223333".

Definition stateMachineArn : string :=
  "arn:aws:states:us-east-1:111122223333:stateMachine:SpendOptimoAutomation".

Definition repositoryArn : string :=
  "arn:aws:ecr:us-east-1:111122223333:repository/spendoptimo-workflow-runtime".

(** Stopping an instance that carries no tag at all. *)
Definition stop_untagged : Request :=
  {| req_action := "ec2:StopInstances";
     req_resource := "arn:aws:ec2:us-east-1:111122223333:instance/i-0abc";
     req_context := [] |}.

Definition converse_with_nova_lite : Request :=
  {| req_action := "bedrock:Converse";
     req_resource := "arn:aws:bedrock:us-east-1::foundation-model/amazon.nova-lite-v1:0";
     req_context := [] |}.

Definition read_agentcore_id : Request :=
  {| req_action := "ssm:GetParameter";
     req_resource := "arn:aws:ssm:us-east-1:111122223333:parameter/spendoptimo/agentcore/id";
     req_context := [] |}.

Definition read_lifecycle : Request :=
  {| req_action := "s3:GetLifecycleConfiguration";
     req_resource := "arn:aws:s3:::reports";
     req_context := [] |}.

Example executor_refuses_the_untagged_stop :
  inline_policy_allows executorRole stop_untagged = false.
Proof. reflexivity. Qed.

Example other_parameters_are_refused :
  allows (api_function region account stateMachineArn)
    {| req_action := "ssm:GetParameter";
       req_resource := "arn:aws:ssm:us-east-1:111122223333:parameter/billing/key";
       req_context := [] |} = false.
Proof. reflexivity. Qed.

Example other_models_are_refused :
  allows (workflow_agent repositoryArn)
    {| req_action := "bedrock:InvokeModel";
       req_resource :=
         "arn:aws:bedrock:us-east-1::foundation-model/amazon.titan-text-express-v1";
       req_context := [] |} = false.
Proof. reflexivity. Qed.

Lemma untagged_instance_can_be_stopped :
  allows (api_function region account stateMachineArn) stop_untagged = true /\
  allows (workflow_agent repositoryArn) stop_untagged = true /\
  allows (analysis_agent repositoryArn) stop_untagged = false.
Proof.
  apply (who_may_change_workloads region account stateMachineArn repositoryArn
           stop_untagged).
  left. reflexivity.
Defined.

Lemma nova_lite_is_a_granted_model :
  In (req_resource converse_with_nova_lite) nova_models.
Proof.
  apply (agents_invoke_only_nova_models repositoryArn converse_with_nova_lite).
  - left. reflexivity.
  - reflexivity.
Defined.

Lemma agentcore_id_is_in_the_namespace :
  exists name, req_resource read_agentcore_id = parameter region account name.
Proof.
  apply (proj1 (api_function_stays_in_its_namespace region account stateMachineArn
                  read_agentcore_id eq_refl eq_refl eq_refl)).
  reflexivity.
Defined.

Lemma read_role_reads_the_lifecycle :
  In (req_action read_lifecycle)
     [ "s3:GetLifecycleConfiguration"; "eks:DescribeNodegroup" ].
Proof.
  apply (read_role_shares_only_reads_with_the_executor read_lifecycle).
  - cbn. tauto.
  - reflexivity.
Defined.

Lemma read_role_may_delete_a_glue_table :
  inline_policy_allows readRole
    {| req_action := "glue:DeleteTable";
       req_resource := "arn:aws:glue:us-east-1:111122223333:table/cur/usage";
       req_context := [] |} = true.
Proof.
  apply (read_role_allows_whole_services "glue:" "DeleteTable"
           "arn:aws:glue:us-east-1:111122223333:table/cur/usage" []).
  cbn. tauto.
Defined.

End Requests.

(** * The page served by the UI stack

    [UiHostingStack] uploads one page whose script signs the user in with
    Cognito's hosted login and posts a goal to the API.  The browser is a
    store (localStorage), the fragment of the address and the text area;
    what the script does to the outside is a list of effects. *)

Module Page.

Record Browser := {
  storage : gmap string string;
  hash : string;
  value : string
}.

Record Request := {
  url : string;
  method : string;
  headers : list (string * string);
  body : list (string * string)
}.

Inductive Effect :=
| Alert (message : string)
| Fetch (r : Request)
| Log (text : string)
| Assign (address : string)
| ReplaceState.

Inductive View := SignedIn | NotSignedIn.

(** [s.charAt(s.length-1) === '/'] then [s.slice(0, -1)]. *)
Fixpoint strip_slash (s : string) : string :=
  match s with
  | EmptyString => EmptyString
  | String c EmptyString => if Ascii.eqb c "/" then EmptyString else s
  | String c s' => String c (strip_slash s')
  end.

(** The path of a resource of the API below its stage. *)
Fixpoint route (p : Apigw.Path) : string :=
  match p with
  | [] => EmptyString
  | part :: p' => ("/" ++ part ++ route p')%string
  end.

Section Script.

(** The values the stack writes into the script, each through
    [JSON.stringify], read back by the browser as the same strings. *)
Variable apiUrl cognitoDomain clientId : string.

(** [window.location.origin]. *)
Variable origin : string.

Variable trim : string -> string.
Variable encodeURIComponent : string -> string.

(** [new URLSearchParams(query).get(name)]. *)
Variable params_get : string -> string -> option string.

(** The answer to a request: its text, or nothing when [fetch] rejects. *)
Variable fetch : Request -> option string.

Definition getItem (k : string) (b : Browser) : option string := storage b !! k.

Definition setItem (k v : string) (b : Browser) : Browser :=
  {| storage := <[k := v]> (storage b); hash := hash b; value := value b |}.

Definition removeItem (k : string) (b : Browser) : Browser :=
  {| storage := delete k (storage b); hash := hash b; value := value b |}.

Definition store_if (k : string) (v : option string) (b : Browser) : Browser :=
  match v with
  | Some s => if Node.truthy v then setItem k s b else b
  | None => b
  end.

(** [parseHash]: tokens found in the fragment go to the store, and the
    fragment is then taken off the address. *)
Definition parseHash (b : Browser) : Browser * list Effect :=
  match hash b with
  | String "#" query =>
      let id := params_get query "id_token" in
      let acc := params_get query "access_token" in
      let b := store_if "access_token" acc (store_if "id_token" id b) in
      if Node.truthy id || Node.truthy acc then
        ({| storage := storage b; hash := EmptyString; value := value b |}, [ReplaceState])
      else (b, [])
  | _ => (b, [])
  end.

(** [updateUi]: which button shows, and the line under the title. *)
Definition updateUi (b : Browser) : View :=
  if Node.truthy (getItem "id_token" b) then SignedIn else NotSignedIn.

Definition signin : list Effect :=
  [ Assign ("https://" ++ cognitoDomain ++ "/login?response_type=token&client_id="
              ++ encodeURIComponent clientId ++ "&redirect_uri="
              ++ encodeURIComponent (origin ++ "/") ++ "&scope=openid+email+profile")%string ].

Definition signout (b : Browser) : Browser :=
  removeItem "access_token" (removeItem "id_token" b).

Definition chat : Apigw.Path := [ "v1"; "chat" ].

Definition chat_request (token goal : string) : Request :=
  {| url := (strip_slash apiUrl ++ route chat)%string;
     method := "POST";
     headers := [ ("Content-Type", "application/json");
                  ("Authorization", ("Bearer " ++ token)%string) ];
     body := [ ("goal", goal) ] |}.

(** The click handler of the Send button. *)
Definition send (b : Browser) : list Effect :=
  match getItem "id_token" b with
  | None | Some EmptyString => [ Alert "Please sign in first." ]
  | Some token =>
      match trim (value b) with
      | EmptyString => [ Alert "Enter a goal." ]
      | goal =>
          let r := chat_request token goal in
          match fetch r with
          | Some text => [ Fetch r; Log text ]
          | None => [ Fetch r; Alert "Request failed; see console" ]
          end
      end
  end.

Lemma signout_token (b : Browser) : getItem "id_token" (signout b) = None.
Proof.
  unfold getItem, signout, removeItem. cbn [storage].
  rewrite lookup_delete_ne by discriminate. apply lookup_delete_eq.
Qed.

Lemma store_if_other (k k' : string) (v : option string) (b : Browser) :
  k <> k' -> getItem k' (store_if k v b) = getItem k' b.
Proof.
  intros Hne. unfold store_if, getItem.
  destruct v as [s|]; [|reflexivity].
  destruct (Node.truthy (Some s)); [|reflexivity].
  cbn [setItem storage]. now rewrite lookup_insert_ne.
Qed.

Lemma store_if_fields (k : string) (v : option string) (b : Browser) :
  hash (store_if k v b) = hash b /\ value (store_if k v b) = value b.
Proof.
  unfold store_if. destruct v as [s|]; [|auto].
  destruct (Node.truthy (Some s)); auto.
Qed.

Lemma send_signed_in (b : Browser) (token : string) :
  getItem "id_token" b = Some token -> token <> "" -> trim (value b) <> "" ->
  exists rest, send b = Fetch (chat_request token (trim (value b))) :: rest.
Proof.
  intros Ht Hne Hg. unfold send. rewrite Ht.
  destruct token as [|c token]; [contradiction|].
  destruct (trim (value b)) as [|d goal]; [contradiction|].
  destruct (fetch _); eauto.
Qed.

(** X18. The Send button posts a request only for a signed-in user with
    a goal that is not blank: a request goes out exactly when an id token
    is stored and the trimmed text is not empty, and it is then the POST
    to /v1/chat carrying the token as a bearer and no other header than
    the content type -- a method the API serves without an API key. *)
Theorem send_posts_only_when_signed_in :
  forall (b : Browser) (r : Request),
    (In (Fetch r) (send b) <->
     exists token,
       getItem "id_token" b = Some token /\ token <> "" /\ trim (value b) <> "" /\
       r = chat_request token (trim (value b))) /\
    (In (Fetch r) (send b) ->
     map fst (headers r) = [ "Content-Type"; "Authorization" ] /\
     Apigw.requiresApiKey <$> Apigw.find_method Apigw.api chat (method r) = Some false).
Proof.
  intros b r.
  assert (Hiff : In (Fetch r) (send b) <->
     exists token,
       getItem "id_token" b = Some token /\ token <> "" /\ trim (value b) <> "" /\
       r = chat_request token (trim (value b))).
  { split.
    - unfold send. destruct (getItem "id_token" b) as [[|c token]|] eqn:Ht;
        try (intros [[=]|[]]).
      destruct (trim (value b)) as [|d goal] eqn:Hg; [intros [[=]|[]]|].
      intros Hin. exists (String c token). repeat split; try discriminate.
      destruct (fetch _); destruct Hin as [[= <-]|[[=]|[]]]; reflexivity.
    - intros (token & Ht & Hne & Hg & ->).
      destruct (send_signed_in b token Ht Hne Hg) as (rest & ->). left. reflexivity. }
  split; [exact Hiff|].
  intros Hin. apply Hiff in Hin as (token & _ & _ & _ & ->). split; reflexivity.
Qed.

(** X19. After Sign out the Send button posts nothing, whatever the text
    area holds: the handler only asks the user to sign in, and the page
    shows the signed-out view. *)
Theorem signing_out_blocks_send :
  forall (b : Browser),
    send (signout b) = [ Alert "Please sign in first." ] /\
    updateUi (signout b) = NotSignedIn /\
    getItem "access_token" (signout b) = None.
Proof.
  intros b. unfold send, updateUi. rewrite signout_token. repeat split.
  unfold getItem, signout, removeItem. cbn [storage]. apply lookup_delete_eq.
Qed.

(** X20. An id token that comes back in the fragment of the address is
    stored and taken off the address, the page shows the signed-in view,
    and the next Send with a goal that is not blank carries that token. *)
Theorem token_in_the_fragment_signs_in :
  forall (b : Browser) (query id : string),
    hash b = String "#" query ->
    params_get query "id_token" = Some id ->
    id <> "" ->
    let b' := (parseHash b).1 in
    hash b' = "" /\
    (parseHash b).2 = [ ReplaceState ] /\
    getItem "id_token" b' = Some id /\
    updateUi b' = SignedIn /\
    (trim (value b) <> "" ->
     exists rest, send b' = Fetch (chat_request id (trim (value b))) :: rest).
Proof.
  intros b query id Hh Hid Hne. unfold parseHash. rewrite Hh, Hid.
  assert (Htruthy : Node.truthy (Some id) = true).
  { destruct id; [contradiction|reflexivity]. }
  rewrite Htruthy. cbn [orb fst snd].
  set (stored := store_if "access_token" _ _).
  assert (Hstored : getItem "id_token" stored = Some id).
  { subst stored. rewrite store_if_other by discriminate.
    unfold store_if. rewrite Htruthy. unfold getItem, setItem. cbn [storage].
    apply lookup_insert_eq. }
  assert (Hvalue : value stored = value b).
  { subst stored. rewrite (proj2 (store_if_fields _ _ _)).
    apply (proj2 (store_if_fields _ _ _)). }
  repeat split.
  - exact Hstored.
  - unfold updateUi, getItem in *. cbn [storage]. now rewrite Hstored, Htruthy.
  - intros Hg. rewrite <- Hvalue in Hg |- *.
    apply (send_signed_in (Build_Browser (storage stored) "" (value stored)) id);
      [exact Hstored|exact Hne|exact Hg].
Qed.

End Script.

Lemma strip_slash_last (base : string) (c : ascii) :
  strip_slash (base ++ String c "")
    = if Ascii.eqb c "/" then base else (base ++ String c "")%string.
Proof.
  induction base as [|d base IH].
  - change (strip_slash (String c "") = if Ascii.eqb c "/" then "" else String c "").
    cbn [strip_slash]. destruct (Ascii.eqb c "/"); reflexivity.
  - change (strip_slash (String d (base ++ String c "")%string)
            = if Ascii.eqb c "/" then String d base
              else String d (base ++ String c "")%string).
    cbn [strip_slash]. rewrite IH.
    destruct base; cbn; destruct (Ascii.eqb c "/"); reflexivity.
Qed.

(** X21. The address of the chat request is the API address with one
    trailing slash dropped, followed by /v1/chat: an address given with or
    without the slash leads to the same request, and only one slash is
    ever dropped. *)
Theorem chat_url_drops_one_trailing_slash :
  forall (base token goal : string),
    url (chat_request (base ++ "/") token goal) = (base ++ "/v1/chat")%string /\
    (forall c, c <> "/"%char ->
       url (chat_request (base ++ String c "") token goal)
         = ((base ++ String c "") ++ "/v1/chat")%string).
Proof.
  intros base token goal. unfold chat_request. cbn [url route chat]. split.
  - now rewrite (strip_slash_last base "/").
  - intros c Hc. rewrite strip_slash_last.
    destruct (Ascii.eqb_spec c "/"); [contradiction|reflexivity].
Qed.

End Page.

Module Visit.
Import Page.

(** A fragment as the hosted login leaves it; only the id token is looked
    up here. *)
Definition params_get (query name : string) : option string :=
  if String.eqb name "id_token" then Some "eyJraWQ" else None.

Definition back_from_login : Browser :=
  {| storage := ∅; hash := "#id_token=eyJraWQ&token_type=Bearer";
     value := "  find idle instances " |}.

Definition fetch (r : Request) : option string := Some "ok".

(** [trim] on text whose only white space is the space. *)
Fixpoint trim_start (s : string) : string :=
  match s with
  | String " " s' => trim_start s'
  | _ => s
  end.

Fixpoint trim_end (s : string) : string :=
  match s with
  | EmptyString => EmptyString
  | String c s' =>
      match trim_end s' with
      | EmptyString => if Ascii.eqb c " " then EmptyString else String c EmptyString
      | t => String c t
      end
  end.

Definition trim (s : string) : string := trim_end (trim_start s).

Example trimmed : trim (value back_from_login) = "find idle instances".
Proof. reflexivity. Qed.

Lemma returning_user_is_signed_in :
  hash (parseHash params_get back_from_login).1 = "" /\
  (parseHash params_get back_from_login).2 = [ ReplaceState ] /\
  getItem "id_token" (parseHash params_get back_from_login).1 = Some "eyJraWQ" /\
  updateUi (parseHash params_get back_from_login).1 = SignedIn /\
  (trim (value back_from_login) <> "" ->
   exists rest,
     send "https://api.example/prod/" trim fetch (parseHash params_get back_from_login).1
       = Fetch (chat_request "https://api.example/prod/" "eyJraWQ"
                  (trim (value back_from_login))) :: rest).
Proof.
  apply (token_in_the_fragment_signs_in "https://api.example/prod/" trim params_get fetch
           back_from_login "id_token=eyJraWQ&token_type=Bearer" "eyJraWQ");
    [reflexivity|reflexivity|discriminate].
Defined.

End Visit.

(** * The prefix of the sign-in domain

    [AgentCoreStack] derives the prefix of the Cognito domain from the
    account and the region. *)

Module Cognito.

(** The class [[a-z0-9-]]. *)
Definition lower (c : ascii) : bool :=
  let n := nat_of_ascii c in (97 <=? n)%nat && (n <=? 122)%nat.

Definition digit (c : ascii) : bool :=
  let n := nat_of_ascii c in (48 <=? n)%nat && (n <=? 57)%nat.

Definition allowed (c : ascii) : bool :=
  lower c || digit c || Ascii.eqb c "-".

Fixpoint all (P : ascii -> bool) (s : string) : bool :=
  match s with
  | EmptyString => true
  | String c s' => P c && all P s'
  end.

(** [s.replace(/[^a-z0-9-]/g, '')]. *)
Fixpoint strip (s : string) : string :=
  match s with
  | EmptyString => EmptyString
  | String c s' => if allowed c then String c (strip s') else strip s'
  end.

(** [s.slice(0, n)]. *)
Fixpoint slice (n : nat) (s : string) : string :=
  match n, s with
  | S n', String c s' => String c (slice n' s')
  | _, _ => EmptyString
  end.

Definition name (account region : string) : string :=
  ("spendoptimo-" ++ account ++ "-" ++ region)%string.

Section Prefix.

Variable toLowerCase : string -> string.

Definition domainPrefix (account region : string) : string :=
  slice 63 (strip (toLowerCase (name account region))).

Lemma strip_allowed (s : string) : all allowed (strip s) = true.
Proof.
  induction s as [|c s IH]; [reflexivity|]. cbn [strip].
  destruct (allowed c) eqn:Hc; [|exact IH]. cbn [all]. now rewrite Hc.
Qed.

Lemma slice_bounds (n : nat) (s : string) :
  String.length (slice n s) <= n /\ (all allowed s = true -> all allowed (slice n s) = true).
Proof.
  revert s. induction n as [|n IH]; intros s; [split; [cbn; lia|reflexivity]|].
  destruct s as [|c s]; [split; [cbn; lia|reflexivity]|].
  cbn [slice String.length all]. destruct (IH s) as [Hlen Hall]. split; [lia|].
  intros H. apply andb_prop in H as [Hc Hs]. now rewrite Hc, Hall.
Qed.

Lemma strip_fixed (s : string) : all allowed s = true -> strip s = s.
Proof.
  induction s as [|c s IH]; [reflexivity|]. cbn [all strip]. intros H.
  apply andb_prop in H as [Hc Hs]. now rewrite Hc, IH.
Qed.

Lemma slice_fixed (n : nat) (s : string) : String.length s <= n -> slice n s = s.
Proof.
  revert s. induction n as [|n IH]; intros [|c s] H; cbn in *; try reflexivity; try lia.
  rewrite IH; [reflexivity|lia].
Qed.

Lemma all_app (P : ascii -> bool) (s t : string) :
  all P (s ++ t)%string = all P s && all P t.
Proof.
  induction s as [|c s IH]; [reflexivity|].
  change (all P (String c (s ++ t)%string) = all P (String c s) && all P t).
  cbn [all]. now rewrite IH, andb_assoc.
Qed.

Lemma digits_allowed (s : string) : all digit s = true -> all allowed s = true.
Proof.
  induction s as [|c s IH]; [reflexivity|]. cbn [all]. intros H.
  apply andb_prop in H as [Hc Hs]. rewrite (IH Hs), andb_true_r.
  unfold allowed. now rewrite Hc, orb_true_r.
Qed.

(** Where the digits of the account end is where the first hyphen is. *)
Lemma account_is_delimited (a1 a2 r1 r2 : string) :
  all digit a1 = true -> all digit a2 = true ->
  (a1 ++ "-" ++ r1)%string = (a2 ++ "-" ++ r2)%string -> a1 = a2 /\ r1 = r2.
Proof.
  revert a2. induction a1 as [|c a1 IH]; intros [|d a2] H1 H2 H.
  - injection H as H. auto.
  - exfalso. injection H as Hc _. subst d. cbn [all] in H2.
    apply andb_prop in H2 as [H2 _]. discriminate.
  - exfalso. injection H as Hc _. subst c. cbn [all] in H1.
    apply andb_prop in H1 as [H1 _]. discriminate.
  - injection H as -> H. cbn [all] in H1, H2.
    apply andb_prop in H1 as [_ H1]. apply andb_prop in H2 as [_ H2].
    destruct (IH a2 H1 H2 H) as [-> ->]. auto.
Qed.

(** An account is a run of digits, a region is written in lower-case
    letters, digits and hyphens, and the whole name fits. *)
Definition plain (account region : string) : Prop :=
  all digit account = true /\ all allowed region = true /\
  String.length (name account region) <= 63.

Lemma plain_name (account region : string) :
  plain account region -> all allowed (name account region) = true.
Proof.
  intros (Ha & Hr & _). unfold name.
  rewrite !all_app, (digits_allowed _ Ha), Hr. reflexivity.
Qed.

(** X22. The prefix of the sign-in domain never has more than 63
    characters nor any character outside a-z, 0-9 and the hyphen.  When
    lower-casing leaves lower-case text alone, the prefix of a plain
    account and region is spendoptimo-<account>-<region> itself, so two
    deployments get the same prefix only for the same account and region. *)
Theorem domain_prefix_is_valid_and_its_own :
  forall (account region : string),
    String.length (domainPrefix account region) <= 63 /\
    all allowed (domainPrefix account region) = true /\
    ((forall s, all allowed s = true -> toLowerCase s = s) ->
     plain account region ->
     domainPrefix account region = name account region /\
     forall account' region',
       plain account' region' ->
       domainPrefix account' region' = domainPrefix account region ->
       account' = account /\ region' = region).
Proof.
  intros account region. unfold domainPrefix.
  destruct (slice_bounds 63 (strip (toLowerCase (name account region)))) as [Hlen Hall].
  split; [exact Hlen|]. split; [apply Hall, strip_allowed|].
  intros Hlower Hplain.
  assert (Hown : forall a r, plain a r ->
             slice 63 (strip (toLowerCase (name a r))) = name a r).
  { intros a r Hp. pose proof (plain_name a r Hp) as Hn.
    rewrite (Hlower _ Hn), (strip_fixed _ Hn). apply slice_fixed, Hp. }
  split; [apply Hown, Hplain|].
  intros account' region' Hplain' Heq.
  rewrite (Hown _ _ Hplain), (Hown _ _ Hplain') in Heq.
  unfold name in Heq.
  apply (account_is_delimited account' account region' region).
  - apply Hplain'.
  - apply Hplain.
  - change (String.append "spendoptimo-" (account' ++ "-" ++ region')
            = String.append "spendoptimo-" (account ++ "-" ++ region))%string in Heq.
    cbn [String.append] in Heq. now injection Heq.
Qed.

End Prefix.

End Cognito.

(** * A deployment in us-east-1 *)

Module Domain.
Import Cognito.

(** Lower-casing of the letters A to Z; every other character is kept. *)
Definition lower_case (c : ascii) : ascii :=
  let n := nat_of_ascii c in
  if (65 <=? n)%nat && (n <=? 90)%nat then ascii_of_nat (n + 32) else c.

Fixpoint toLowerCase (s : string) : string :=
  match s with
  | EmptyString => EmptyString
  | String c s' => String (lower_case c) (toLowerCase s')
  end.

Lemma lower_case_fixed (s : string) : all allowed s = true -> toLowerCase s = s.
Proof.
  induction s as [|c s IH]; [reflexivity|]. cbn [all toLowerCase]. intros H.
  apply andb_prop in H as [Hc Hs]. rewrite (IH Hs). f_equal.
  revert Hc. destruct c as [[] [] [] [] [] [] [] []]; vm_compute; congruence.
Defined.

Lemma plain_deployment : plain "111122223333" "us-east-1".
Proof.
  split; [reflexivity|]. split; [reflexivity|]. apply Nat.leb_le. reflexivity.
Defined.

Example mixed_case_is_folded :
  domainPrefix toLowerCase "111122223333" "US_East.1" = "spendoptimo-111122223333-useast1".
Proof. reflexivity. Qed.

Lemma deployment_keeps_its_name :
  domainPrefix toLowerCase "111122223333" "us-east-1"
    = "spendoptimo-111122223333-us-east-1".
Proof.
  apply (proj2 (proj2 (domain_prefix_is_valid_and_its_own toLowerCase
                         "111122223333" "us-east-1"))
           lower_case_fixed plain_deployment).
Defined.

End Domain.
